(** * OpenVINO estimator of analytics-zoo (pyzoo/zoo/orca/learn/openvino/estimator.py)

    A shallow embedding of [OpenvinoEstimator]: the constructor and [load],
    which infer a default batch size from the model's XML description, the
    [predict] dispatcher with its chunking and trimming bookkeeping, and the
    unsupported training methods.

    Python values are embedded as an inductive type, numpy arrays as a shape
    with row-major data, exceptions as an error result, and the estimator
    object together with the calls made to the inference engine as an
    explicit state threaded through a small state-and-error monad.  The
    division [len(data) / self.batch_size] is the float division of the
    language, with its rounding.  The systems the estimator binds to (Spark,
    the inference engine, the XML parser's file access, the built-in [int],
    [zoo.util.nest]) are gathered in one record of external operations. *)

From Stdlib Require Import Ascii String.
From stdpp Require Import gmap strings list fin_maps.

Set Warnings "-register-all".

Local Open Scope Z_scope.

(** ** Exceptions and results *)

Inductive exn :=
| ValueError
| TypeError
| AssertionError
| NotImplementedError
| IndexError
| KeyError
| AttributeError
| ZeroDivisionError
| OverflowError
| UnboundLocalError
| ExternalError (msg : string).

Inductive result (A : Type) :=
| Ok (a : A)
| Err (e : exn).
Arguments Ok {A} a.
Arguments Err {A} e.

Definition result_bind {A B} (f : A → result B) (r : result A) : result B :=
  match r with
  | Ok a => f a
  | Err e => Err e
  end.

#[global] Instance result_ret : MRet result := λ A a, Ok a.
#[global] Instance result_mbind : MBind result := λ A B f r, result_bind f r.

(** [assert cond] of Python: nothing happens when [cond] holds. *)
Definition py_assert (cond : bool) : result unit :=
  if cond then Ok () else Err AssertionError.

(** A [for] loop whose body may raise: the bodies run in order and the first
    exception ends the loop. *)
Fixpoint for_each {A} (body : A → result unit) (l : list A) : result unit :=
  match l with
  | [] => Ok ()
  | x :: l' => body x ;; for_each body l'
  end.

(** A loop threading an accumulator (the local variables the body assigns). *)
Fixpoint for_fold {A S} (body : S → A → result S) (s : S) (l : list A) : result S :=
  match l with
  | [] => Ok s
  | x :: l' => s' ← body s x; for_fold body s' l'
  end.

(** A comprehension or [map] whose function may raise. *)
Fixpoint map_result {A B} (f : A → result B) (l : list A) : result (list B) :=
  match l with
  | [] => Ok []
  | x :: l' => y ← f x; ys ← map_result f l'; Ok (y :: ys)
  end.

(** [enumerate(l)] *)
Definition enumerate {A} (l : list A) : list (nat * A) :=
  zip (seq 0 (length l)) l.

(** ** numpy arrays

    An array is its shape and its entries in row-major order; the entries
    themselves play no part in the estimator's bookkeeping and are kept as
    integers.  A shape [[]] is a zero-dimensional array (or a numpy scalar,
    which is what iterating over a one-dimensional array yields). *)

Record ndarray := mk_ndarray { shape : list nat; data : list Z }.

(** Number of entries of one row: the product of the trailing dimensions. *)
Definition stride (tail : list nat) : nat := foldr Nat.mul 1%nat tail.

(** [a.shape[0]] *)
Definition shape0 (a : ndarray) : result nat :=
  match shape a with
  | [] => Err IndexError
  | n :: _ => Ok n
  end.

(** [len(a)] *)
Definition ndarray_len (a : ndarray) : result nat :=
  match shape a with
  | [] => Err TypeError
  | n :: _ => Ok n
  end.

(** [a[st:end]] for non-negative bounds, along the first axis; bounds past the
    end are clipped, as Python slices are. *)
Definition slice (a : ndarray) (st en : nat) : result ndarray :=
  match shape a with
  | [] => Err IndexError
  | n :: tail =>
      let st' := (st `min` n)%nat in
      let en' := (en `min` n)%nat in
      let count := (en' - st')%nat in
      Ok {| shape := count :: tail;
            data := take (count * stride tail) (drop (st' * stride tail) (data a)) |}
  end.

(** Iterating over an array: its rows along the first axis. *)
Definition rows (a : ndarray) : result (list ndarray) :=
  match shape a with
  | [] => Err TypeError
  | n :: tail =>
      Ok ((λ i, {| shape := tail;
                   data := take (stride tail) (drop (i * stride tail) (data a)) |})
            <$> seq 0 n)
  end.

(** The running sums of [numpy.cumsum]. *)
Fixpoint cumsum_from (acc : nat) (l : list nat) : list nat :=
  match l with
  | [] => []
  | x :: l' => (acc + x)%nat :: cumsum_from (acc + x) l'
  end.
Definition cumsum (l : list nat) : list nat := cumsum_from 0 l.

(** [numpy.array_split(ary, Nsections)] for an integer number of sections:
    [divmod] gives the size of each section and the number of sections that
    get one more row; the sections are cut at the running sums. *)
Definition array_split (ary : ndarray) (Nsections : Z) : result (list ndarray) :=
  Ntotal ← shape0 ary;
  if decide (Nsections ≤ 0) then Err ValueError
  else
    let Nsec := Z.to_nat Nsections in
    let Neach_section := (Ntotal `div` Nsec)%nat in
    let extras := (Ntotal `mod` Nsec)%nat in
    let section_sizes :=
      [0%nat] ++ replicate extras (Neach_section + 1)%nat
              ++ replicate (Nsec - extras) Neach_section in
    let div_points := cumsum section_sizes in
    map_result (λ i,
        match div_points !! i, div_points !! (i + 1)%nat with
        | Some st, Some en => slice ary st en
        | _, _ => Err IndexError
        end) (seq 0 Nsec).

(** [numpy.concatenate(arrays, axis=0)]: at least one array, none of them
    zero-dimensional, all with the same trailing dimensions. *)
Definition concatenate (arrays : list ndarray) : result ndarray :=
  match arrays with
  | [] => Err ValueError
  | first :: _ =>
      match shape first with
      | [] => Err ValueError
      | _ :: tail =>
          ns ← map_result (λ a,
                 match shape a with
                 | [] => Err ValueError
                 | n :: tail' => if decide (tail' = tail) then Ok n else Err ValueError
                 end) arrays;
          Ok {| shape := sum_list ns :: tail;
                data := concat (data <$> arrays) |}
      end
  end.

(** ** Floats: [/] on integers and [math.ceil]

    [len(data) / self.batch_size] divides two integers of any size into a
    float: the quotient rounded to the nearest binary64 value, a tie going to
    the even mantissa; [OverflowError] when the rounded value reaches
    [2^1024], zero when the quotient is too small for the smallest subnormal.
    A finite float is kept as the number [mantissa * 2^exponent]; the sign of
    a zero decides nothing here and is dropped. *)

Record pyfloat := mk_pyfloat { mantissa : Z; exponent : Z }.

(** [2^k], and 1 for a negative [k]: a quotient is scaled by multiplying its
    numerator by [pow2 (- e)] and its denominator by [pow2 e]. *)
Definition pow2 (k : Z) : Z := 2 ^ Z.max 0 k.

(** The binary exponent of [a / b] for positive [a] and [b]: the [ex] with
    [2^ex <= a / b < 2^(ex + 1)], found from the bit lengths. *)
Definition quotient_exponent (a b : Z) : Z :=
  let d := Z.log2 a - Z.log2 b in
  if decide (b * pow2 d ≤ a * pow2 (- d)) then d else d - 1.

(** The integer nearest to [num / den], the even one when two are as near. *)
Definition round_half_even (num den : Z) : Z :=
  let q := num `div` den in
  let r := num `mod` den in
  if decide (2 * r < den) then q
  else if decide (den < 2 * r) then q + 1
  else if Z.even q then q else q + 1.

(** [a / b] for positive [a] and [b]: 53 bits of mantissa from the leading
    bit of the quotient on, fewer below the normal range. *)
Definition divide_pos (a b : Z) : result pyfloat :=
  let e := Z.max (quotient_exponent a b - 52) (-1074) in
  let m := round_half_even (a * pow2 (- e)) (b * pow2 e) in
  if decide (2 ^ 1024 * pow2 (- e) ≤ m * pow2 e) then Err OverflowError
  else Ok {| mantissa := m; exponent := e |}.

(** [a / b] on integers. *)
Definition true_divide (a b : Z) : result pyfloat :=
  if decide (b = 0) then Err ZeroDivisionError
  else if decide (a = 0) then Ok {| mantissa := 0; exponent := 0 |}
  else
    x ← divide_pos (Z.abs a) (Z.abs b);
    Ok {| mantissa := Z.sgn a * Z.sgn b * mantissa x; exponent := exponent x |}.

(** [math.ceil(x)]: the least integer not below [x]. *)
Definition math_ceil (x : pyfloat) : Z :=
  - ((- (mantissa x * pow2 (exponent x))) `div` pow2 (- exponent x)).

(** [math.ceil(n / b)] for a length [n] and an integer [b]. *)
Definition ceil_div (n : nat) (b : Z) : result Z :=
  x ← true_divide (Z.of_nat n) b; Ok (math_ceil x).

(** [sys.maxsize]: no [len] is larger. *)
Definition sys_maxsize : Z := 2 ^ 63 - 1.

(** ** Python values *)

Inductive pyval :=
| PNone
| PInt (z : Z)
| PStr (s : string)
| PNdarray (a : ndarray)
| PList (l : list pyval)
| PDict (d : gmap string pyval).

(** Spark's distributed collections: the partitions, each with its elements
    in order. *)
Definition rdd (A : Type) : Type := list (list A).

(** What [predict] takes and returns: a Spark DataFrame (its rows), a
    [SparkXShards] (its shards) or an ordinary Python value. *)
Inductive pyobj :=
| DataFrame (df : rdd pyval)
| SparkXShards (shards : rdd pyval)
| Value (v : pyval).

(** [len(v)] *)
Definition py_len (v : pyval) : result nat :=
  match v with
  | PNone => Err TypeError
  | PInt _ => Err TypeError
  | PStr s => Ok (String.length s)
  | PNdarray a => ndarray_len a
  | PList l => Ok (length l)
  | PDict d => Ok (size d)
  end.

(** [isinstance(v, np.ndarray)] *)
Definition is_ndarray (v : pyval) : bool :=
  match v with
  | PNdarray _ => true
  | _ => false
  end.

(** [v.shape[0]]: only arrays have a [shape] attribute. *)
Definition py_shape0 (v : pyval) : result nat :=
  match v with
  | PNdarray a => shape0 a
  | _ => Err AttributeError
  end.

(** [rdd.map(f)] for a function that may raise, [rdd.zip], [rdd.flatMap] and
    [rdd.collect()].  A failing task fails the job; [zip] needs the same number
    of partitions and the same number of elements in each of them. *)
Definition rdd_map {A B} (f : A → result B) (r : rdd A) : result (rdd B) :=
  map_result (map_result f) r.

Fixpoint zip_exact {A B} (l : list A) (k : list B) : result (list (A * B)) :=
  match l, k with
  | [], [] => Ok []
  | x :: l', y :: k' => ps ← zip_exact l' k'; Ok ((x, y) :: ps)
  | _, _ => Err (ExternalError "zip")
  end.

Definition rdd_zip {A B} (r : rdd A) (s : rdd B) : result (rdd (A * B)) :=
  ps ← zip_exact r s;
  map_result (λ p, zip_exact p.1 p.2) ps.

Definition rdd_flatMap {A B} (f : A → result (list B)) (r : rdd A) : result (rdd B) :=
  map_result (λ p, ys ← map_result f p; Ok (concat ys)) r.

Definition collect {A} (r : rdd A) : list A := concat r.

(** ** The model description: XML elements and the lookup of the shape item *)

Inductive element :=
| Element (tag : string) (text : option string) (children : list element).

Definition tag_of (e : element) : string := let 'Element t _ _ := e in t.
Definition text_of (e : element) : option string := let 'Element _ t _ := e in t.
Definition children_of (e : element) : list element := let 'Element _ _ c := e in c.

(** One step [/tag] of an ElementTree path: the children with that tag of
    every element selected so far, in document order. *)
Definition select_child (tag : string) (ctx : list element) : list element :=
  e ← ctx; filter (λ c, tag_of c = tag) (children_of e).

(** A step [/tag[k]]: of every element selected so far, the [k]-th child among
    those with that tag (positions count from 1). *)
Definition select_child_at (tag : string) (k : nat) (ctx : list element) : list element :=
  e ← ctx; option_list (filter (λ c, tag_of c = tag) (children_of e) !! (k - 1)%nat).

(** [root.find('./layers/layer/output/port/dim[1]')]: the first match. *)
Definition find_shape_item (root : element) : option element :=
  head (select_child_at "dim" 1
         (select_child "port"
           (select_child "output"
             (select_child "layer"
               (select_child "layers" [root]))))).

(** ** Strings: decimal literals and [str.rindex] *)

(** The blanks [int] drops around ASCII text: tab to carriage return, and
    the space. *)
Definition is_space (c : ascii) : bool :=
  let n := nat_of_ascii c in
  ((9 <=? n) && (n <=? 13) || (n =? 32))%nat.

(** The value of a decimal digit. *)
Definition digit_of (c : ascii) : option Z :=
  let n := nat_of_ascii c in
  if ((48 <=? n) && (n <=? 57))%nat then Some (Z.of_nat (n - 48)) else None.

(** Dropping the whitespace at the start, and at both ends. *)
Fixpoint lstrip (l : list ascii) : list ascii :=
  match l with
  | c :: l' => if is_space c then lstrip l' else l
  | [] => []
  end.

Definition strip (l : list ascii) : list ascii := reverse (lstrip (reverse (lstrip l))).

(** The digits of a decimal literal, most significant first; single
    underscores may separate digits.  [prev] tells whether the previous
    character was a digit. *)
Fixpoint digits_value (acc : Z) (prev : bool) (l : list ascii) : option Z :=
  match l with
  | [] => if prev then Some acc else None
  | c :: l' =>
      match digit_of c with
      | Some d => digits_value (10 * acc + d) true l'
      | None =>
          if (Ascii.eqb c "_" && prev)%bool then
            match l' with
            | [] => None
            | _ => digits_value acc false l'
            end
          else None
      end
  end.

(** A reader of decimal literals, for the environments of the examples below
    (the estimator itself takes [int] from its environment): blanks around
    the literal are dropped and one sign is allowed; no text at all is a
    [TypeError], anything that is not such a literal a [ValueError]. *)
Definition decimal_int (text : option string) : result Z :=
  match text with
  | None => Err TypeError
  | Some s =>
      let body := strip (list_ascii_of_string s) in
      let signed :=
        match body with
        | c :: rest =>
            if Ascii.eqb c "-" then (-1, rest)
            else if Ascii.eqb c "+" then (1, rest)
            else (1, body)
        | [] => (1, body)
        end in
      match digits_value 0 false signed.2 with
      | Some v => Ok (signed.1 * v)
      | None => Err ValueError
      end
  end.

(** [s.rindex(c)]: the highest position of [c] in [s]. *)
Fixpoint rindex_opt (c : ascii) (s : string) : option nat :=
  match s with
  | EmptyString => None
  | String c' s' =>
      match rindex_opt c s' with
      | Some i => Some (S i)
      | None => if Ascii.eqb c' c then Some 0%nat else None
      end
  end.

Definition rindex (s : string) (c : ascii) : result nat :=
  match rindex_opt c s with
  | Some i => Ok i
  | None => Err ValueError
  end.

(** [s[:i]] *)
Definition str_take (i : nat) (s : string) : string := substring 0 i s.

(** [v["x"]] on a shard *)
Definition py_getitem (v : pyval) (key : string) : result pyval :=
  match v with
  | PDict d =>
      match d !! key with
      | Some x => Ok x
      | None => Err KeyError
      end
  | _ => Err TypeError
  end.

(** ** The estimator object, the outside world and the method monad *)

(** The two loading entry points of [InferenceModel]. *)
Inductive loader := load_openvino_ng | load_openvino.

Record inference_model := mk_inference_model {
  supported_concurrent_num : nat;
  loaded : option (loader * string * string * Z) }.

(** The attributes of an [OpenvinoEstimator]; [None] is an attribute that has
    not been assigned yet. *)
Record estimator := mk_estimator {
  node_num : option nat;
  core_num : option nat;
  path : option string;
  batch_size : option Z;
  model : option inference_model }.

Definition blank_estimator : estimator :=
  {| node_num := None; core_num := None; path := None; batch_size := None; model := None |}.

(** Calls that leave the estimator, in the order they are made. *)
Inductive event :=
| ParseXml (file : string)
| LoadModel (api : loader) (model_path weight_path : string) (batch : Z)
| DistributedPredict (inputs : rdd pyval).

Record world := mk_world { self : estimator; log : list event }.

(** What the estimator relies on without defining it: the cluster
    configuration, the XML parser reading a file, the built-in [int] applied
    to the text of an element ([None] for an element without text), the
    inference engine, Spark's [parallelize], [zoo.util.nest] and the DataFrame
    converters of [zoo.orca.learn.utils]. *)
Record externals := mk_externals {
  get_node_and_core_number : nat * nat;
  ET_parse : string → result element;
  py_int : option string → result Z;
  engine_load : loader → string → string → Z → result unit;
  engine_distributed_predict : rdd pyval → result (rdd ndarray);
  nest_flatten : pyval → list pyval;
  nest_pack_sequence_as : pyval → list pyval → pyval;
  sc_parallelize : list pyval → Z → rdd pyval;
  dataframe_to_xshards : rdd pyval → pyval → result (rdd pyval);
  convert_predict_rdd_to_dataframe : rdd pyval → rdd ndarray → pyobj }.

(** A method body: it reads and assigns attributes of [self], appends to the
    log, and returns or raises.  Assignments made before an exception stay. *)
Definition M (A : Type) : Type := world → result A * world.

#[global] Instance M_ret : MRet M := λ A a w, (Ok a, w).
#[global] Instance M_bind : MBind M := λ A B f m w,
  match m w with
  | (Ok a, w') => f a w'
  | (Err e, w') => (Err e, w')
  end.

Definition raise {A} (e : exn) : M A := λ w, (Err e, w).
Definition lift {A} (r : result A) : M A := λ w, (r, w).
Definition emit (ev : event) : M unit :=
  λ w, (Ok (), {| self := self w; log := log w ++ [ev] |}).
Definition assign (f : estimator → estimator) : M unit :=
  λ w, (Ok (), {| self := f (self w); log := log w |}).
(** Reading [self.attr]: an [AttributeError] while it is unassigned. *)
Definition read_attr {A} (o : option A) : result A :=
  match o with
  | Some a => Ok a
  | None => Err AttributeError
  end.
Definition attr {A} (f : estimator → option A) : M A :=
  λ w, (read_attr (f (self w)), w).
Definition get_self : M estimator := λ w, (Ok (self w), w).

Definition set_node_core (nodes cores : nat) (s : estimator) : estimator :=
  {| node_num := Some nodes; core_num := Some cores; path := path s;
     batch_size := batch_size s; model := model s |}.
Definition set_path (p : string) (s : estimator) : estimator :=
  {| node_num := node_num s; core_num := core_num s; path := Some p;
     batch_size := batch_size s; model := model s |}.
Definition set_batch_size (b : Z) (s : estimator) : estimator :=
  {| node_num := node_num s; core_num := core_num s; path := path s;
     batch_size := Some b; model := model s |}.
Definition set_model (m : inference_model) (s : estimator) : estimator :=
  {| node_num := node_num s; core_num := core_num s; path := path s;
     batch_size := batch_size s; model := Some m |}.

Section Estimator.

Context (E : externals).

(** [self.model.load_openvino_ng(...)] and [self.model.load_openvino(...)]:
    the engine is called with the three arguments and, when it returns, the
    model object holds what was loaded. *)
Definition model_load (api : loader) (model_path weight_path : string) (batch : Z) : M unit :=
  m ← attr model;
  emit (LoadModel api model_path weight_path batch);;
  lift (engine_load E api model_path weight_path batch);;
  assign (set_model {| supported_concurrent_num := supported_concurrent_num m;
                       loaded := Some (api, model_path, weight_path, batch) |}).

(** [self.model.distributed_predict(rdd, sc)] *)
Definition model_distributed_predict (inputs : rdd pyval) : M (rdd ndarray) :=
  _ ← attr model;
  emit (DistributedPredict inputs);;
  lift (engine_distributed_predict E inputs).

(** [OpenvinoEstimator.__init__(model_path=..., batch_size=...)] *)
Definition __init__ (model_path : string) (batch_size_arg : Z) : M unit :=
  assign (set_node_core (get_node_and_core_number E).1 (get_node_and_core_number E).2);;
  assign (set_path model_path);;
  (if decide (batch_size_arg ≠ 0) then assign (set_batch_size batch_size_arg)
   else
     emit (ParseXml model_path);;
     root ← lift (ET_parse E model_path);
     match find_shape_item root with
     | None => raise ValueError
     | Some shape_item =>
         v ← lift (py_int E (text_of shape_item));
         assign (set_batch_size v)
     end);;
  cores ← attr core_num;
  assign (set_model {| supported_concurrent_num := cores; loaded := None |});;
  i ← lift (rindex model_path ".");
  b ← attr batch_size;
  model_load load_openvino_ng model_path (str_take i model_path +:+ ".bin") b.

(** [Estimator.from_openvino]: a new object initialised by [__init__]. *)
Definition from_openvino (model_path : string) (batch_size_arg : Z)
    (log0 : list event) : result estimator * list event :=
  let out := __init__ model_path batch_size_arg {| self := blank_estimator; log := log0 |} in
  (out.1 ;; Ok (self out.2), log out.2).

(** [OpenvinoEstimator.load(model_path, batch_size)] *)
Definition load (model_path : string) (batch_size_arg : Z) : M unit :=
  assign (set_node_core (get_node_and_core_number E).1 (get_node_and_core_number E).2);;
  assign (set_path model_path);;
  (if decide (batch_size_arg ≠ 0) then assign (set_batch_size batch_size_arg)
   else
     emit (ParseXml model_path);;
     root ← lift (ET_parse E model_path);
     match find_shape_item root with
     | None => raise ValueError
     | Some shape_item =>
         v ← lift (py_int E (text_of shape_item));
         assign (set_batch_size v)
     end);;
  cores ← attr core_num;
  assign (set_model {| supported_concurrent_num := cores; loaded := None |});;
  i ← lift (rindex model_path ".");
  model_load load_openvino model_path (str_take i model_path +:+ ".bin") batch_size_arg.

(** ** [predict]

    [predict] first imports [pyspark.sql.DataFrame] and fetches the Spark
    context with [init_nncontext()]; neither decides anything below and both
    are left out.  An RDD is a list of partitions and its transformations run
    where the source attaches them; an exception raised in a task is reported
    as that exception (Spark wraps it on the way to the driver). *)

(** The local function [predict_transform] of [predict]: a shard is a
    dictionary with a key ["x"] whose feature, an array or a list of arrays,
    has at most [batch_size] rows; the feature is what is sent on. *)
Definition predict_transform (dict_data : pyval) (batch_size : Z) : result pyval :=
  match dict_data with
  | PDict d =>
      match d !! "x" with
      | None => Err AssertionError
      | Some feature_data =>
          match feature_data with
          | PNdarray a =>
              n ← shape0 a;
              py_assert (bool_decide (Z.of_nat n ≤ batch_size));;
              Ok feature_data
          | PList l =>
              for_each (λ elem,
                match elem with
                | PNdarray a =>
                    n ← shape0 a;
                    py_assert (bool_decide (Z.of_nat n ≤ batch_size))
                | _ => Err AssertionError
                end) l;;
              Ok feature_data
          | _ => Err ValueError
          end
      end
  | _ => Err AssertionError
  end.

(** The local function [delete_useless_result] of the DataFrame branch. *)
Definition delete_useless_result (data : pyval * ndarray) : result ndarray :=
  let '(shard, y) := data in
  x ← py_getitem shard "x";
  data_length ← py_len x;
  slice y 0 data_length.

(** The local function [update_shard] of the XShards branch. *)
Definition update_shard (data : pyval * ndarray) : result pyval :=
  let '(shard, y) := data in
  x ← py_getitem shard "x";
  data_length ← py_len x;
  prediction ← slice y 0 data_length;
  match shard with
  | PDict d => Ok (PDict (<["prediction" := PNdarray prediction]> d))
  | _ => Err TypeError
  end.

(** The array branch up to the chunks: the number of chunks, the chunks and
    their recorded lengths. *)
Definition split_ndarray (this : estimator) (data : ndarray)
    : result (Z * list ndarray * list nat) :=
  n ← ndarray_len data;
  b ← read_attr (batch_size this);
  split_num ← ceil_div n b;
  arrays ← array_split data split_num;
  data_length_list ← map_result ndarray_len arrays;
  Ok (split_num, arrays, data_length_list).

(** [data_to_be_rdd[idx].append(x_part)] *)
Definition append_at (idx : nat) (x_part : ndarray) (data_to_be_rdd : list (list ndarray))
    : result (list (list ndarray)) :=
  match data_to_be_rdd !! idx with
  | Some shard => Ok (<[idx := shard ++ [x_part]]> data_to_be_rdd)
  | None => Err IndexError
  end.

(** The body of the inner loop of the list branch: the part joins its shard,
    and [data_length_list] is assigned the lengths of the rows of the part. *)
Definition split_list_inner (st : list (list ndarray) * option (list nat))
    (p : nat * ndarray) : result (list (list ndarray) * option (list nat)) :=
  let '(idx, x_part) := p in
  data_to_be_rdd ← append_at idx x_part st.1;
  part_rows ← rows x_part;
  data_length_list ← map_result ndarray_len part_rows;
  Ok (data_to_be_rdd, Some data_length_list).

(** The body of the outer loop of the list branch, for one flattened element. *)
Definition split_list_outer (data_length : nat) (split_num : Z)
    (st : list (list ndarray) * option (list nat)) (x : pyval)
    : result (list (list ndarray) * option (list nat)) :=
  match x with
  | PNdarray a =>
      n ← ndarray_len a;
      py_assert (bool_decide (n = data_length));;
      x_parts ← array_split a split_num;
      for_fold split_list_inner st (enumerate x_parts)
  | _ => Err AssertionError
  end.

(** The list branch up to the shards: the number of shards, the shards (one
    part of every flattened array each) and [data_length_list] as the loops
    leave it. *)
Definition split_list (this : estimator) (data : pyval)
    : result (Z * list (list ndarray) * option (list nat)) :=
  let flattened := nest_flatten E data in
  first ← match flattened !! 0%nat with Some v => Ok v | None => Err IndexError end;
  data_length ← py_len first;
  n0 ← py_shape0 first;
  b ← read_attr (batch_size this);
  split_num ← ceil_div n0 b;
  let data_to_be_rdd := replicate (Z.to_nat split_num) [] in
  st ← for_fold (split_list_outer data_length split_num) (data_to_be_rdd, None) flattened;
  Ok (split_num, st.1, st.2).

(** The loop that cuts every collected result to its recorded length, and
    the concatenation of what is left. *)
Definition trim_results (result_arr_list : list ndarray)
    (data_length_list : option (list nat)) : result (list ndarray) :=
  map_result (λ p : nat * ndarray,
      match data_length_list with
      | None => Err UnboundLocalError
      | Some lens =>
          match lens !! p.1 with
          | Some k => slice p.2 0 k
          | None => Err IndexError
          end
      end) (enumerate result_arr_list).

Definition reassemble (result_rdd : rdd ndarray) (data_length_list : option (list nat))
    : result ndarray :=
  result_arr_list ← trim_results (collect result_rdd) data_length_list;
  concatenate result_arr_list.

Definition predict_dataframe (df : rdd pyval) (feature_cols : pyval) : M pyobj :=
  xshards ← lift (dataframe_to_xshards E df feature_cols);
  b ← attr batch_size;
  transformed_data ← lift (rdd_map (λ shard, predict_transform shard b) xshards);
  result_rdd ← model_distributed_predict transformed_data;
  zipped ← lift (rdd_zip xshards result_rdd);
  result_rdd ← lift (rdd_map delete_useless_result zipped);
  result_rows ← lift (rdd_flatMap rows result_rdd);
  mret (convert_predict_rdd_to_dataframe E df result_rows).

Definition predict_xshards (shards : rdd pyval) : M pyobj :=
  b ← attr batch_size;
  transformed_data ← lift (rdd_map (λ shard, predict_transform shard b) shards);
  result_rdd ← model_distributed_predict transformed_data;
  zipped ← lift (rdd_zip shards result_rdd);
  updated ← lift (rdd_map update_shard zipped);
  mret (SparkXShards updated).

Definition predict_ndarray (data : ndarray) : M pyobj :=
  this ← get_self;
  sp ← lift (split_ndarray this data);
  let '(split_num, arrays, data_length_list) := sp in
  let data_rdd := sc_parallelize E (PNdarray <$> arrays) split_num in
  result_rdd ← model_distributed_predict data_rdd;
  result_arr ← lift (reassemble result_rdd (Some data_length_list));
  mret (Value (PNdarray result_arr)).

Definition predict_list (data : pyval) : M pyobj :=
  this ← get_self;
  sp ← lift (split_list this data);
  let '(split_num, data_to_be_rdd, data_length_list) := sp in
  let packed := (λ shard, nest_pack_sequence_as E data (PNdarray <$> shard)) <$> data_to_be_rdd in
  let data_rdd := sc_parallelize E packed split_num in
  result_rdd ← model_distributed_predict data_rdd;
  result_arr ← lift (reassemble result_rdd data_length_list);
  mret (Value (PNdarray result_arr)).

(** [OpenvinoEstimator.predict(data, feature_cols)]: the dispatch on the kind
    of [data]. *)
Definition predict (data : pyobj) (feature_cols : pyval) : M pyobj :=
  match data with
  | DataFrame df => predict_dataframe df feature_cols
  | SparkXShards shards => predict_xshards shards
  | Value (PNdarray a) => predict_ndarray a
  | Value (PList l) => predict_list (PList l)
  | Value _ => raise ValueError
  end.

(** ** The unsupported methods *)

Definition fit (data : pyobj) (epochs batch_size feature_cols label_cols : pyval)
    (validation_data : pyobj) (checkpoint_trigger : pyval) : M pyval :=
  raise NotImplementedError.

Definition evaluate (data : pyobj) (batch_size feature_cols label_cols : pyval) : M pyval :=
  raise NotImplementedError.

Definition get_model : M pyval := raise NotImplementedError.

Definition save (model_path : pyval) : M pyval := raise NotImplementedError.

Definition set_tensorboard (log_dir app_name : pyval) : M pyval :=
  raise NotImplementedError.

Definition clear_gradient_clipping : M pyval := raise NotImplementedError.

Definition set_constant_gradient_clipping (min max : pyval) : M pyval :=
  raise NotImplementedError.

Definition set_l2_norm_gradient_clipping (clip_norm : pyval) : M pyval :=
  raise NotImplementedError.

Definition get_train_summary (tag : pyval) : M pyval := raise NotImplementedError.

Definition get_validation_summary (tag : pyval) : M pyval := raise NotImplementedError.

Definition load_orca_checkpoint (path version : pyval) : M pyval :=
  raise NotImplementedError.

End Estimator.

(** ** A concrete environment, to run the estimator on examples *)

(** [nest.flatten] on nested lists: the leaves from left to right. *)
Fixpoint flatten_lists (v : pyval) : list pyval :=
  match v with
  | PList l =>
      (fix go (l : list pyval) : list pyval :=
         match l with
         | [] => []
         | x :: l' => flatten_lists x ++ go l'
         end) l
  | _ => [v]
  end.

(** An engine whose model has a fixed batch of [batch] rows: whatever the
    input holds it answers with [batch] rows of one entry each, the rows past
    the input being padding. *)
Definition fixed_batch_engine (batch : nat) (inputs : rdd pyval) : result (rdd ndarray) :=
  Ok (fmap (M := list) (fmap (M := list)
        (λ _, {| shape := [batch; 1%nat]; data := replicate batch 0 |})) inputs).

(** A cluster of one node with four cores, an engine of fixed batch [batch]
    that loads every model, [files] as the content of the file system,
    [decimal_int] for [int], one element per partition for [parallelize], flat
    lists for [nest]. *)
Definition sample_env (files : string → result element) (batch : nat) : externals :=
  {| get_node_and_core_number := (1%nat, 4%nat);
     ET_parse := files;
     py_int := decimal_int;
     engine_load := λ _ _ _ _, Ok ();
     engine_distributed_predict := fixed_batch_engine batch;
     nest_flatten := flatten_lists;
     nest_pack_sequence_as := λ _ flat, PList flat;
     sc_parallelize := λ l _, (λ x, [x]) <$> l;
     dataframe_to_xshards := λ df _, Ok df;
     convert_predict_rdd_to_dataframe := λ _ result_rows,
       DataFrame (fmap (M := list) (fmap (M := list) PNdarray) result_rows) |}.

(** A model description in the layout of an OpenVINO IR file, with [dim_text]
    as the text of the first dimension of the first output port. *)
Definition ir_xml (dim_text : option string) : element :=
  Element "net" None
    [Element "layers" None
       [Element "layer" None
          [Element "output" None
             [Element "port" None
                [Element "dim" dim_text [];
                 Element "dim" (Some "3") [];
                 Element "dim" (Some "224") [];
                 Element "dim" (Some "224") []]]]]].

(** A description without layers. *)
Definition empty_xml : element := Element "net" None [].

(** A file system with four model descriptions. *)
Definition sample_files (file : string) : result element :=
  if decide (file = "resnet.xml") then Ok (ir_xml (Some "4"))
  else if decide (file = "resnet") then Ok (ir_xml (Some "4"))
  else if decide (file = "dynamic.xml") then Ok (ir_xml (Some "N"))
  else if decide (file = "empty.xml") then Ok empty_xml
  else Err (ExternalError "FileNotFoundError").

(** An array of [n] rows of [m] entries, all zero. *)
Definition zeros (n m : nat) : ndarray :=
  {| shape := [n; m]; data := replicate (n * m) 0 |}.

(** An estimator as [__init__] leaves it, with batch size [b]. *)
Definition loaded_estimator (b : Z) : estimator :=
  {| node_num := Some 1%nat; core_num := Some 4%nat; path := Some "resnet.xml";
     batch_size := Some b;
     model := Some {| supported_concurrent_num := 4;
                      loaded := Some (load_openvino_ng, "resnet.xml", "resnet.bin", b) |} |}.

Definition loaded_world (b : Z) : world := {| self := loaded_estimator b; log := [] |}.

(** An engine that answers every array with the array itself. *)
Definition echo_engine (inputs : rdd pyval) : result (rdd ndarray) :=
  rdd_map (λ v, match v with PNdarray a => Ok a | _ => Err (ExternalError "engine") end) inputs.

(** [sample_env] with the echoing engine. *)
Definition echo_env : externals :=
  {| get_node_and_core_number := (1%nat, 4%nat);
     ET_parse := sample_files;
     py_int := decimal_int;
     engine_load := λ _ _ _ _, Ok ();
     engine_distributed_predict := echo_engine;
     nest_flatten := flatten_lists;
     nest_pack_sequence_as := λ _ flat, PList flat;
     sc_parallelize := λ l _, (λ x, [x]) <$> l;
     dataframe_to_xshards := λ df _, Ok df;
     convert_predict_rdd_to_dataframe := λ _ result_rows,
       DataFrame (fmap (M := list) (fmap (M := list) PNdarray) result_rows) |}.

(** An array of five rows of two entries, numbered from 1. *)
Definition counting : ndarray :=
  {| shape := [5%nat; 2%nat]; data := [1; 2; 3; 4; 5; 6; 7; 8; 9; 10] |}.

(** A batch size and a number of rows, [(2^24 + 1) * wide_batch + 1], whose
    quotient lies closer to [2^24 + 1] than floats are spaced there, and an
    array of that many rows without entries, of shape [(long_rows, 0)]. *)
Definition wide_batch : Z := 2 ^ 31 - 1.
Definition long_rows : Z := (2 ^ 24 + 1) * wide_batch + 1.
Definition long_array : ndarray := {| shape := [Z.to_nat long_rows; 0%nat]; data := [] |}.

(** ** Notions used in the statements *)

(** An estimator on which [__init__] or [load] has completed, with batch size
    [b]: the two attributes [predict] reads are assigned. *)
Definition ready (this : estimator) (b : Z) : Prop :=
  batch_size this = Some b ∧ is_Some (model this).

(** A chunk of at most [b] rows. *)
Definition at_most_rows (b : Z) (c : ndarray) : Prop :=
  ∃ m, ndarray_len c = Ok m ∧ Z.of_nat m ≤ b.

(** The number of rows of section [i] when [Ntotal] rows are split into
    [Nsec] sections: the first [Ntotal mod Nsec] sections have one more. *)
Definition section_size (Ntotal Nsec i : nat) : nat :=
  (Ntotal / Nsec + (if decide (i < Ntotal `mod` Nsec)%nat then 1 else 0))%nat.

(** What the inner loop of the list branch makes of shard [j], when it runs
    over [parts] starting at shard [s]. *)
Definition snoc_part (parts : list ndarray) (s j : nat) (shard : list ndarray) : list ndarray :=
  if decide (s ≤ j)%nat then shard ++ option_list (parts !! (j - s)%nat) else shard.

(** The shards of the list branch once the arrays [xs] went through the outer
    loop: as many as sections, shard [i] holding section [i] of every
    array, in the order of the arrays. *)
Definition shards_of (k : Z) (xs : list ndarray) (rdd : list (list ndarray)) : Prop :=
  length rdd = Z.to_nat k ∧
  ∀ i shard, rdd !! i = Some shard →
    Forall2 (λ x part, ∃ parts, array_split x k = Ok parts ∧ parts !! i = Some part) xs shard.

(** The shards as they are handed to [parallelize]. *)
Definition pack_shards (E : externals) (data : pyval) (shards : list (list ndarray)) : list pyval :=
  (λ shard, nest_pack_sequence_as E data (PNdarray <$> shard)) <$> shards.

(** The character [c] occurs in [s]. *)
Definition has_char (c : ascii) (s : string) : Prop := c ∈ list_ascii_of_string s.

(** [weight_path] is [model_path] with everything from its last ["."] on
    replaced by [".bin"]. *)
Definition replaced_extension (model_path weight_path : string) : Prop :=
  ∃ pre suf, model_path = pre +:+ String "." suf ∧ ¬ has_char "." suf ∧
             weight_path = pre +:+ ".bin".

(** A feature that [predict_transform] lets through: an array, or a list of
    arrays, of at most [b] rows each. *)
Definition feature_within (b : Z) (feature : pyval) : Prop :=
  match feature with
  | PNdarray a => ∃ n, shape0 a = Ok n ∧ Z.of_nat n ≤ b
  | PList l => Forall (λ elem, ∃ a n, elem = PNdarray a ∧ shape0 a = Ok n ∧ Z.of_nat n ≤ b) l
  | _ => False
  end.

(** A shard that is a dictionary holding [feature] under ["x"]. *)
Definition shard_with_feature (b : Z) (shard feature : pyval) : Prop :=
  ∃ d, shard = PDict d ∧ d !! "x" = Some feature ∧ feature_within b feature.

(** An engine output with at least as many rows as [len(feature)]. *)
Definition output_covers (feature : pyval) (y : ndarray) : Prop :=
  ∃ k m, py_len feature = Ok k ∧ ndarray_len y = Ok m ∧ (k ≤ m)%nat.

(** [r] is the dictionary [shard] with the key ["prediction"] set to the
    first [len(shard["x"])] rows of [y]. *)
Definition extended_with_prediction (shard : pyval) (y : ndarray) (r : pyval) : Prop :=
  ∃ d x k y', shard = PDict d ∧ d !! "x" = Some x ∧ py_len x = Ok k ∧
    slice y 0 k = Ok y' ∧ ndarray_len y' = Ok k ∧
    r = PDict (<["prediction" := PNdarray y']> d).

(** ** Results, loops and array splitting *)

Lemma bind_Ok {A B} (f : A → result B) (r : result A) (b : B) :
  r ≫= f = Ok b ↔ ∃ a, r = Ok a ∧ f a = Ok b.
Proof.
  destruct r as [a|e]; simpl; split.
  - eauto.
  - intros (a' & [= <-] & H). done.
  - done.
  - intros (a' & [=] & _).
Qed.

Lemma map_result_Forall2 {A B} (f : A → result B) l ys :
  map_result f l = Ok ys ↔ Forall2 (λ x y, f x = Ok y) l ys.
Proof.
  revert ys. induction l as [|x l IH]; intros ys; simpl.
  - split; [intros [= <-]; constructor | by inversion 1].
  - rewrite bind_Ok. split.
    + intros (y & Hy & H). apply bind_Ok in H as (ys' & Hys & [= <-]).
      constructor; [done | by apply IH].
    + inversion 1 as [|? y ? ys' Hy Hys]; subst. exists y. split; [done|].
      apply bind_Ok. exists ys'. split; [by apply IH | done].
Qed.

Lemma map_result_total {A B} (f : A → result B) (g : A → B) l :
  (∀ x, x ∈ l → f x = Ok (g x)) → map_result f l = Ok (g <$> l).
Proof.
  induction l as [|x l IH]; intros H; simpl; [done|].
  rewrite H by left. simpl. rewrite IH; [done|]. intros y Hy. apply H. by right.
Qed.

Lemma cumsum_from_lookup l acc i :
  (i < length l)%nat →
  cumsum_from acc l !! i = Some (acc + sum_list (take (S i) l))%nat.
Proof.
  revert acc i. induction l as [|x l IH]; intros acc i Hi; simpl in *; [lia|].
  destruct i as [|i]; simpl.
  - f_equal. lia.
  - rewrite IH by lia. f_equal. simpl. lia.
Qed.

Lemma sum_list_take_le (l : list nat) i : (sum_list (take i l) ≤ sum_list l)%nat.
Proof.
  rewrite <- (take_drop i l) at 2. rewrite sum_list_with_app. lia.
Qed.

Lemma sizes_lookup (n K i : nat) :
  (i < K)%nat →
  (replicate (n `mod` K) (n / K + 1) ++ replicate (K - n `mod` K) (n / K))%nat !! i
  = Some (section_size n K i).
Proof.
  intros Hi. unfold section_size.
  pose proof (Nat.mod_upper_bound n K ltac:(lia)) as Hm.
  case_decide.
  - rewrite lookup_app_l by (rewrite length_replicate; lia).
    rewrite lookup_replicate_2 by lia. done.
  - rewrite lookup_app_r by (rewrite length_replicate; lia).
    rewrite length_replicate. rewrite lookup_replicate_2 by lia. f_equal. lia.
Qed.

Lemma sizes_sum (n K : nat) :
  (0 < K)%nat →
  sum_list (replicate (n `mod` K) (n / K + 1) ++ replicate (K - n `mod` K) (n / K))%nat = n.
Proof.
  intros HK. rewrite sum_list_with_app, !sum_list_replicate.
  pose proof (Nat.mod_upper_bound n K ltac:(lia)) as Hm.
  pose proof (Nat.div_mod_eq n K). nia.
Qed.

Lemma array_split_parts a n tail k :
  shape a = n :: tail → 0 < k →
  ∃ parts, array_split a k = Ok parts ∧ length parts = Z.to_nat k ∧
    ∀ i p, parts !! i = Some p →
      shape p = section_size n (Z.to_nat k) i :: tail.
Proof.
  intros Hs Hk. unfold array_split, shape0. rewrite Hs. simpl.
  case_decide; [lia|].
  set (K := Z.to_nat k). assert (0 < K)%nat as HK by lia.
  set (sizes := (replicate (n `mod` K) (n `div` K + 1) ++ replicate (K - n `mod` K) (n `div` K))%nat).
  set (f := λ i : nat, _).
  assert (Hlen : length sizes = K).
  { unfold sizes. rewrite length_app, !length_replicate.
    pose proof (Nat.mod_upper_bound n K ltac:(lia)). lia. }
  assert (Hf : ∀ i, (i < K)%nat →
     f i = Ok {| shape := section_size n K i :: tail;
                 data := take (section_size n K i * stride tail)
                           (drop (sum_list (take i sizes) * stride tail) (data a)) |}).
  { intros i Hi. unfold f, cumsum. simpl.
    assert (Hst : (0%nat :: cumsum_from 0 sizes) !! i = Some (sum_list (take i sizes))).
    { destruct i as [|i]; [by rewrite take_0|]. simpl.
      rewrite cumsum_from_lookup by lia. done. }
    rewrite Hst.
    replace (i + 1)%nat with (S i) by lia. simpl.
    rewrite cumsum_from_lookup by lia. simpl.
    unfold slice. rewrite Hs.
    pose proof (sum_list_take_le sizes (S i)) as Hle.
    unfold sizes in Hle at 2. rewrite sizes_sum in Hle by done.
    assert (Hstep : sum_list (take (S i) sizes) = (sum_list (take i sizes) + section_size n K i)%nat).
    { rewrite (take_S_r _ _ (section_size n K i)) by (by apply sizes_lookup).
      rewrite sum_list_with_app. simpl. lia. }
    rewrite Hstep in *.
    rewrite !Nat.min_l by lia.
    replace (sum_list (take i sizes) + section_size n K i - sum_list (take i sizes))%nat
      with (section_size n K i) by lia.
    done. }
  exists ((λ i, {| shape := section_size n K i :: tail;
                 data := take (section_size n K i * stride tail)
                           (drop (sum_list (take i sizes) * stride tail) (data a)) |}) <$> seq 0 K).
  split; [|split].
  - apply map_result_total. intros i Hi. apply elem_of_seq in Hi. apply Hf. lia.
  - by rewrite length_fmap, length_seq.
  - intros i p Hp. rewrite list_lookup_fmap in Hp.
    destruct (seq 0 K !! i) as [j|] eqn:Hj; [|done].
    apply lookup_seq in Hj as [-> _]. simpl in Hp. by injection Hp as <-.
Qed.

(** *** The float quotient and its ceiling *)

Lemma pow2_pos k : 0 < pow2 k.
Proof. unfold pow2. apply Z.pow_pos_nonneg; lia. Qed.

Lemma pow2_nonpos k : k ≤ 0 → pow2 k = 1.
Proof. intros Hk. unfold pow2. by rewrite Z.max_l by lia. Qed.

Lemma pow2_nonneg k : 0 ≤ k → pow2 k = 2 ^ k.
Proof. intros Hk. unfold pow2. by rewrite Z.max_r by lia. Qed.

Lemma pow2_succ k : 0 ≤ k → pow2 (k + 1) = 2 * pow2 k.
Proof. intros Hk. rewrite !pow2_nonneg by lia. by rewrite <- Z.pow_succ_r. Qed.

Lemma pow2_add j k : 0 ≤ j → 0 ≤ k → pow2 (j + k) = pow2 j * pow2 k.
Proof. intros Hj Hk. rewrite !pow2_nonneg by lia. by rewrite Z.pow_add_r. Qed.

(** The exponent found for a quotient brackets it between two powers of
    two. *)
Lemma quotient_exponent_spec a b :
  0 < a → 0 < b →
  b * pow2 (quotient_exponent a b) ≤ a * pow2 (- quotient_exponent a b) ∧
  a * pow2 (- (quotient_exponent a b + 1)) < b * pow2 (quotient_exponent a b + 1) ∧
  Z.log2 a - Z.log2 b - 1 ≤ quotient_exponent a b ≤ Z.log2 a - Z.log2 b.
Proof.
  intros Ha Hb. unfold quotient_exponent.
  destruct (Z.log2_spec a Ha) as [HaL HaU]. destruct (Z.log2_spec b Hb) as [HbL HbU].
  pose proof (Z.log2_nonneg a) as Hla. pose proof (Z.log2_nonneg b) as Hlb.
  rewrite Z.pow_succ_r in HaU, HbU by done.
  set (la := Z.log2 a) in *. set (lb := Z.log2 b) in *.
  case_decide as Htest.
  - split; [done|]. split; [|lia].
    destruct (decide (0 ≤ la - lb)) as [Hd|Hd].
    + rewrite (pow2_nonpos (- (la - lb + 1))) by lia. rewrite pow2_succ by done.
      assert (2 ^ la = 2 ^ lb * pow2 (la - lb)) as HP.
      { rewrite pow2_nonneg by done. rewrite <- Z.pow_add_r by lia. f_equal. lia. }
      pose proof (pow2_pos (la - lb)). nia.
    + rewrite (pow2_nonpos (la - lb + 1)) by lia.
      assert (2 ^ lb = 2 * 2 ^ la * pow2 (- (la - lb + 1))) as HQ.
      { rewrite pow2_nonneg by lia. rewrite <- Z.pow_succ_r by done.
        rewrite <- Z.pow_add_r by lia. f_equal. lia. }
      pose proof (pow2_pos (- (la - lb + 1))). nia.
  - split; [|split; [|lia]].
    + destruct (decide (1 ≤ la - lb)) as [Hd|Hd].
      * rewrite (pow2_nonpos (- (la - lb - 1))) by lia.
        assert (2 ^ la = 2 * 2 ^ lb * pow2 (la - lb - 1)) as HP.
        { rewrite pow2_nonneg by lia. rewrite <- Z.pow_succ_r by done.
          rewrite <- Z.pow_add_r by lia. f_equal. lia. }
        pose proof (pow2_pos (la - lb - 1)). nia.
      * rewrite (pow2_nonpos (la - lb - 1)) by lia.
        assert (2 * 2 ^ lb = 2 ^ la * pow2 (- (la - lb - 1))) as HQ.
        { rewrite pow2_nonneg by lia. rewrite <- Z.pow_succ_r by done.
          rewrite <- Z.pow_add_r by lia. f_equal. lia. }
        pose proof (pow2_pos (- (la - lb - 1))). nia.
    + replace (la - lb - 1 + 1) with (la - lb) by lia. lia.
Qed.

Lemma round_half_even_spec num den :
  0 ≤ num → 0 < den →
  let m := round_half_even num den in
  (2 * m - 1) * den ≤ 2 * num ≤ (2 * m + 1) * den ∧ 0 ≤ m.
Proof.
  intros Hn Hd. unfold round_half_even.
  pose proof (Z.div_mod num den ltac:(lia)) as Hdm.
  pose proof (Z.mod_pos_bound num den Hd) as Hm.
  pose proof (Z.div_pos num den Hn Hd) as Hq.
  simpl. repeat case_decide; [nia..|]. destruct (Z.even _); nia.
Qed.

(** Below [2^53] the float quotient rounds up to the integer ceiling. *)
Lemma ceil_div_exact n b :
  (1 ≤ n)%nat → Z.of_nat n < 2 ^ 53 → 1 ≤ b < 2 ^ 53 →
  ∃ k, ceil_div n b = Ok k ∧ (k - 1) * b < Z.of_nat n ≤ k * b.
Proof.
  intros Hn Hn53 [Hb Hb53]. unfold ceil_div, true_divide.
  rewrite !decide_False by lia. rewrite !Z.abs_eq by lia.
  rewrite !Z.sgn_pos by lia.
  set (a := Z.of_nat n) in *. assert (1 ≤ a) as Ha by lia. clearbody a. clear n Hn.
  unfold divide_pos.
  destruct (quotient_exponent_spec a b ltac:(lia) ltac:(lia)) as (Hlow & _ & Hex).
  assert (0 ≤ Z.log2 a < 53) as Hla.
  { split; [apply Z.log2_nonneg|]. apply Z.log2_lt_pow2; lia. }
  assert (0 ≤ Z.log2 b < 53) as Hlb.
  { split; [apply Z.log2_nonneg|]. apply Z.log2_lt_pow2; lia. }
  set (ex := quotient_exponent a b) in *.
  rewrite Z.max_l by lia.
  rewrite (pow2_nonpos (ex - 52)) by lia. rewrite !Z.mul_1_r.
  replace (- (ex - 52)) with (52 - ex) by lia.
  set (S := pow2 (52 - ex)).
  assert (1 ≤ S) as HS by (pose proof (pow2_pos (52 - ex)); lia).
  assert (b < 2 * S) as HbS.
  { unfold S. rewrite <- pow2_succ by lia.
    destruct (decide (0 ≤ ex)) as [Hpos|Hneg].
    - rewrite (pow2_nonpos (- ex)) in Hlow by lia.
      assert (2 ^ 53 = pow2 (52 - ex + 1) * pow2 ex) as Hsplit.
      { rewrite <- pow2_add by lia. rewrite pow2_nonneg by lia. f_equal. lia. }
      pose proof (pow2_pos ex). nia.
    - rewrite (pow2_nonpos ex) in Hlow by lia.
      assert (pow2 (52 - ex + 1) = 2 ^ 53 * pow2 (- ex)) as Hsplit.
      { rewrite <- (pow2_nonneg 53) by lia. rewrite <- pow2_add by lia. f_equal. lia. }
      pose proof (pow2_pos (- ex)). nia. }
  pose proof (round_half_even_spec (a * S) b ltac:(nia) ltac:(lia)) as [Hm Hm0].
  set (m := round_half_even (a * S) b) in *. clearbody m.
  rewrite decide_False.
  2:{ assert (2 ^ 53 < 2 ^ 1024) by (apply Z.pow_lt_mono_r; lia). nia. }
  simpl. unfold math_ceil. simpl.
  rewrite (pow2_nonpos (ex - 52)) by lia.
  replace (- (ex - 52)) with (52 - ex) by lia. fold S.
  rewrite Z.mul_1_l, Z.mul_1_r.
  clearbody S. clear Hlow Hex Hla Hlb.
  eexists. split; [done|].
  pose proof (Z.div_mod (- m) S ltac:(lia)) as Hdm.
  pose proof (Z.mod_pos_bound (- m) S ltac:(lia)) as Hr.
  set (c := - ((- m) `div` S)) in *.
  assert (m ≤ c * S < m + S) as Hc by (unfold c; nia).
  clearbody c. clear Hdm Hr.
  split; nia.
Qed.

Lemma ceil_div_no_rows b : b ≠ 0 → ceil_div 0 b = Ok 0.
Proof. intros Hb. unfold ceil_div, true_divide. by rewrite decide_False by done. Qed.

Lemma ceil_div_zero_batch n : ceil_div n 0 = Err ZeroDivisionError.
Proof. done. Qed.

(** No quotient of a numerator below [2^1023] overflows. *)
Lemma divide_pos_total a b :
  0 < a < 2 ^ 1023 → 0 < b → ∃ x, divide_pos a b = Ok x ∧ 0 ≤ mantissa x.
Proof.
  intros [Ha Ha'] Hb. unfold divide_pos.
  destruct (quotient_exponent_spec a b Ha Hb) as (Hlow & _ & _).
  set (ex := quotient_exponent a b) in *.
  set (e := Z.max (ex - 52) (-1074)).
  pose proof (pow2_pos e) as HT. pose proof (pow2_pos (- e)) as HS.
  pose proof (round_half_even_spec (a * pow2 (- e)) (b * pow2 e) ltac:(nia) ltac:(nia))
    as [[Hm _] Hm0].
  set (m := round_half_even _ _) in *. clearbody m.
  rewrite decide_False; [eauto|].
  assert (2 ^ 1024 = 2 * 2 ^ 1023) as -> by (by rewrite <- Z.pow_succ_r).
  destruct (decide (e ≤ 0)) as [He|He].
  - rewrite (pow2_nonpos e) in * by done. nia.
  - rewrite (pow2_nonpos (- e)) in * by lia.
    assert (pow2 e ≤ a) as HTa.
    { assert (e = ex - 52) as -> by lia.
      rewrite (pow2_nonpos (- ex)) in Hlow by lia.
      assert (pow2 ex = pow2 (ex - 52) * pow2 52) as Hsplit.
      { rewrite <- pow2_add by lia. f_equal. lia. }
      pose proof (pow2_pos 52). pose proof (pow2_pos (ex - 52)). nia. }
    nia.
Qed.

Lemma ceil_div_negative n b :
  b < 0 → Z.of_nat n < 2 ^ 1023 → ∃ k, ceil_div n b = Ok k ∧ k ≤ 0.
Proof.
  intros Hb Hn. destruct n as [|n]; [exists 0; split; [by apply ceil_div_no_rows; lia|lia]|].
  unfold ceil_div, true_divide. rewrite !decide_False by lia.
  destruct (divide_pos_total (Z.abs (Z.of_nat (S n))) (Z.abs b) ltac:(lia) ltac:(lia))
    as ([m e] & -> & Hm).
  simpl in Hm. rewrite Z.sgn_pos by lia. rewrite Z.sgn_neg by done.
  eexists. split; [done|]. unfold math_ceil. cbn [mantissa exponent mbind result_mbind result_bind].
  pose proof (pow2_pos e). pose proof (pow2_pos (- e)).
  assert (0 ≤ (- (1 * -1 * m * pow2 e)) `div` pow2 (- e)); [|lia].
  apply Z.div_pos; nia.
Qed.

Lemma sys_maxsize_small n : Z.of_nat n ≤ sys_maxsize → Z.of_nat n < 2 ^ 1023.
Proof.
  unfold sys_maxsize. intros Hn.
  assert (2 ^ 63 < 2 ^ 1023) by (apply Z.pow_lt_mono_r; lia). lia.
Qed.

(** Past these bounds the float quotient stops being the quotient: a tie is
    rounded to the even neighbour, [2^53 + 3] is rounded up to [2^53 + 4], a
    quotient of [2^-1075] is rounded to zero, and one of [2^1024] is too
    large for a float. *)
Lemma float_quotient_limits :
  (x ← true_divide (2 ^ 53 + 1) (2 ^ 53); Ok (math_ceil x)) = Ok 1 ∧
  (x ← true_divide (2 ^ 53 + 3) 1; Ok (math_ceil x)) = Ok (2 ^ 53 + 4) ∧
  (x ← true_divide 1 (2 ^ 1075); Ok (math_ceil x)) = Ok 0 ∧
  true_divide (2 ^ 1024) 1 = Err OverflowError ∧
  true_divide (2 ^ 1024) (-1) = Err OverflowError.
Proof. repeat split; vm_compute; reflexivity. Qed.

Lemma array_split_sections a k parts : array_split a k = Ok parts → 0 < k.
Proof.
  unfold array_split. destruct (shape0 a); simpl; [|done]. case_decide; [done|lia].
Qed.

Lemma section_size_le n b k i :
  (1 ≤ n)%nat → 1 ≤ b → (k - 1) * b < Z.of_nat n ≤ k * b →
  Z.of_nat (section_size n (Z.to_nat k) i) ≤ b.
Proof.
  intros Hn Hb Hk. assert (1 ≤ k) as Hk1 by nia.
  unfold section_size. set (K := Z.to_nat k).
  assert (Z.of_nat K = k) as HK by lia.
  pose proof (Nat.div_mod_eq n K) as Hdm.
  pose proof (Nat.mod_upper_bound n K ltac:(lia)) as Hm.
  case_decide; nia.
Qed.

Lemma section_size_sum n K :
  (0 < K)%nat → sum_list (section_size n K <$> seq 0 K) = n.
Proof.
  intros HK. etrans; [|apply (sizes_sum n K HK)]. f_equal.
  apply list_eq. intros i. rewrite list_lookup_fmap.
  destruct (decide (i < K)%nat) as [Hi|Hi].
  - rewrite lookup_seq_lt by done. simpl. by rewrite sizes_lookup.
  - rewrite lookup_seq_ge by lia. simpl. symmetry. apply lookup_ge_None.
    rewrite length_app, !length_replicate.
    pose proof (Nat.mod_upper_bound n K ltac:(lia)). lia.
Qed.

Lemma rows_lens p m d tail :
  shape p = m :: d :: tail →
  (rows p ≫= map_result ndarray_len) = Ok (replicate m d).
Proof.
  intros Hs. unfold rows. rewrite Hs. simpl.
  erewrite (map_result_total _ (λ _, d)).
  - f_equal. generalize 0%nat. clear. induction m; intros s; simpl; [done|]. by rewrite IHm.
  - intros r Hr. apply list_elem_of_fmap in Hr as (i & -> & _). done.
Qed.

Lemma inner_loop parts : ∀ s rdd dll,
  Forall (λ p, (2 ≤ length (shape p))%nat) parts →
  (s + length parts ≤ length rdd)%nat →
  ∃ rdd' dll',
    for_fold split_list_inner (rdd, dll) (zip (seq s (length parts)) parts) = Ok (rdd', dll') ∧
    length rdd' = length rdd ∧
    (parts ≠ [] → is_Some dll') ∧
    ∀ j shard, rdd !! j = Some shard → rdd' !! j = Some (snoc_part parts s j shard).
Proof.
  induction parts as [|p parts IH]; intros s rdd dll Hdim Hlen; simpl in *.
  - exists rdd, dll. split_and!; [done..|].
    intros j shard Hj. unfold snoc_part. case_decide; [|done].
    by rewrite lookup_nil, app_nil_r.
  - apply Forall_cons in Hdim as [Hp Hdim].
    destruct (lookup_lt_is_Some_2 rdd s ltac:(lia)) as [sh Hsh].
    unfold append_at. rewrite Hsh. simpl.
    destruct (shape p) as [|m [|d tail]] eqn:Hs; simpl in Hp; [lia..|].
    pose proof (rows_lens p m d tail Hs) as Hrows. simpl in Hrows.
    destruct (rows p) as [rs|] eqn:Hr; [|done]. simpl in *. rewrite Hrows. simpl.
    destruct (IH (S s) (<[s:=sh ++ [p]]> rdd) (Some (replicate m d)) Hdim) as (rdd' & dll' & Hrun & Hl & Hsome & Hlook).
    { rewrite length_insert. lia. }
    exists rdd', dll'. rewrite Hrun. split_and!; [done| by rewrite Hl, length_insert | | ].
    { intros _. destruct parts; [|by apply Hsome]. simpl in Hrun. injection Hrun as <- <-. eauto. }
    intros j shard Hj. destruct (decide (j = s)) as [->|Hne].
    + rewrite (Hlook s (sh ++ [p])).
      2:{ rewrite list_lookup_insert_eq; [done|]. by eapply lookup_lt_Some. }
      rewrite Hsh in Hj. injection Hj as <-. unfold snoc_part.
      rewrite decide_False by lia. rewrite decide_True by lia.
      by rewrite Nat.sub_diag.
    + rewrite (Hlook j shard) by (by rewrite list_lookup_insert_ne).
      unfold snoc_part. destruct (decide (S s ≤ j)%nat).
      * rewrite decide_True by lia. replace (j - s)%nat with (S (j - S s)) by lia. done.
      * rewrite decide_False by lia. done.
Qed.

Lemma outer_loop n k xs2 : ∀ xs1 rdd dll,
  0 < k →
  Forall (λ x, ∃ tail, shape x = n :: tail ∧ tail ≠ []) xs2 →
  shards_of k xs1 rdd →
  ∃ rdd' dll',
    for_fold (split_list_outer n k) (rdd, dll) (PNdarray <$> xs2) = Ok (rdd', dll') ∧
    (xs2 ≠ [] → is_Some dll') ∧
    shards_of k (xs1 ++ xs2) rdd'.
Proof.
  induction xs2 as [|x xs2 IH]; intros xs1 rdd dll Hk Hxs Hinv; simpl.
  - exists rdd, dll. by rewrite app_nil_r.
  - apply Forall_cons in Hxs as [(tail & Hs & Htail) Hxs].
    unfold ndarray_len. rewrite Hs. simpl. rewrite bool_decide_eq_true_2 by done. simpl.
    destruct (array_split_parts x n tail k Hs Hk) as (parts & Hsplit & Hlen & Hshape).
    rewrite Hsplit. simpl. unfold enumerate.
    destruct Hinv as [Hrl Hinv].
    destruct (inner_loop parts 0 rdd dll) as (rdd1 & dll1 & Hrun & Hl1 & Hsome1 & Hlook).
    { apply Forall_lookup. intros i p Hp. rewrite (Hshape i p Hp). simpl.
      destruct tail; [done|simpl; lia]. }
    { lia. }
    rewrite Hrun. simpl.
    destruct (IH (xs1 ++ [x]) rdd1 dll1 Hk Hxs) as (rdd' & dll' & Hrun' & Hsome' & Hinv').
    { split; [lia|]. intros i shard Hi.
      destruct (lookup_lt_is_Some_2 rdd i) as [sh0 Hsh0].
      { rewrite <- Hl1. by eapply lookup_lt_Some. }
      rewrite (Hlook i sh0 Hsh0) in Hi. injection Hi as <-.
      unfold snoc_part. rewrite decide_True by lia. rewrite Nat.sub_0_r.
      destruct (lookup_lt_is_Some_2 parts i) as [p Hp].
      { rewrite Hlen, <- Hrl. by eapply lookup_lt_Some. }
      rewrite Hp. simpl. apply Forall2_app; [by apply Hinv|].
      constructor; [|constructor]. eauto. }
    exists rdd', dll'. split_and!; [exact Hrun'| |by rewrite <- app_assoc in Hinv'].
    intros _. destruct xs2; [|by apply Hsome'].
    simpl in Hrun'. injection Hrun' as <- <-. apply Hsome1.
    intros ->. simpl in Hlen. lia.
Qed.

Lemma ndarray_len_shape a n : ndarray_len a = Ok n ↔ ∃ tail, shape a = n :: tail.
Proof.
  unfold ndarray_len. destruct (shape a) as [|m tail]; split.
  - done.
  - by intros (? & ?).
  - intros [= <-]. eauto.
  - intros (? & [= <- _]). done.
Qed.

Lemma array_split_within x n b k :
  ndarray_len x = Ok n → (1 ≤ n)%nat → 1 ≤ b → (k - 1) * b < Z.of_nat n ≤ k * b →
  ∃ parts, array_split x k = Ok parts ∧ length parts = Z.to_nat k ∧
    Forall (at_most_rows b) parts.
Proof.
  intros Hlen Hn Hb Hk. apply ndarray_len_shape in Hlen as (tail & Hs).
  destruct (array_split_parts x n tail k Hs ltac:(nia)) as (parts & Hsplit & Hl & Hshape).
  exists parts. split_and!; [done..|].
  apply Forall_lookup. intros i p Hp. exists (section_size n (Z.to_nat k) i).
  split; [|by apply section_size_le].
  apply ndarray_len_shape. eauto.
Qed.

Lemma predict_ndarray_log E this logs data k arrays lens :
  split_ndarray this data = Ok (k, arrays, lens) → is_Some (model this) →
  log (predict_ndarray E data {| self := this; log := logs |}).2
  = logs ++ [DistributedPredict (sc_parallelize E (PNdarray <$> arrays) k)].
Proof.
  intros Hsplit [m Hm].
  unfold predict_ndarray, model_distributed_predict, mbind, M_bind, get_self, lift, attr, emit, read_attr.
  simpl. rewrite Hsplit. simpl. rewrite Hm. simpl.
  destruct (engine_distributed_predict E _) as [outs|e]; simpl; [|done].
  destruct (reassemble outs (Some lens)); done.
Qed.

Lemma predict_list_log E this logs data k shards dll :
  split_list E this data = Ok (k, shards, dll) → is_Some (model this) →
  log (predict_list E data {| self := this; log := logs |}).2
  = logs ++ [DistributedPredict (sc_parallelize E (pack_shards E data shards) k)].
Proof.
  intros Hsplit [m Hm].
  unfold predict_list, model_distributed_predict, mbind, M_bind, get_self, lift, attr, emit, read_attr.
  simpl. rewrite Hsplit. simpl. rewrite Hm. simpl.
  destruct (engine_distributed_predict E _) as [outs|e]; simpl; [|done].
  destruct (reassemble outs dll); done.
Qed.

Lemma split_ndarray_chunks this data n b :
  ready this b → 1 ≤ b < 2 ^ 53 → (1 ≤ n)%nat → Z.of_nat n < 2 ^ 53 →
  ndarray_len data = Ok n →
  ∃ k arrays lens, split_ndarray this data = Ok (k, arrays, lens) ∧
    ceil_div n b = Ok k ∧ (k - 1) * b < Z.of_nat n ≤ k * b ∧
    array_split data k = Ok arrays ∧ length arrays = Z.to_nat k ∧
    Forall (at_most_rows b) arrays ∧
    Forall2 (λ c m, ndarray_len c = Ok m) arrays lens.
Proof.
  intros [Hb _] Hb1 Hn Hn53 Hlen. unfold split_ndarray. rewrite Hlen, Hb. simpl.
  destruct (ceil_div_exact n b Hn Hn53 Hb1) as (k & Hk & Hceil). rewrite Hk. simpl.
  destruct (array_split_within data n b k Hlen Hn ltac:(lia) Hceil) as (parts & Hsplit & Hl & Hw).
  rewrite Hsplit. simpl.
  assert (∃ lens, map_result ndarray_len parts = Ok lens) as [lens Hlens].
  { clear -Hw. induction parts as [|p parts IH]; simpl; [eauto|].
    apply Forall_cons in Hw as [(m & Hm & _) Hw]. rewrite Hm. simpl.
    destruct (IH Hw) as [lens ->]. simpl. eauto. }
  rewrite Hlens. simpl. exists k, parts, lens.
  do 6 (split; [done|]). by apply map_result_Forall2.
Qed.

Lemma split_list_shards E this l xs n b :
  ready this b → 1 ≤ b < 2 ^ 53 → (1 ≤ n)%nat → Z.of_nat n < 2 ^ 53 →
  nest_flatten E (PList l) = PNdarray <$> xs → xs ≠ [] →
  Forall (λ x, ndarray_len x = Ok n) xs →
  Forall (λ x, (2 ≤ length (shape x))%nat) xs →
  ∃ k shards dll, split_list E this (PList l) = Ok (k, shards, Some dll) ∧
    ceil_div n b = Ok k ∧ shards_of k xs shards.
Proof.
  intros [Hb _] Hb1 Hn Hn53 Hflat Hne Hlen Hdim. unfold split_list. rewrite Hflat.
  assert (∃ x0, xs !! 0%nat = Some x0) as [x0 Hx0] by (destruct xs; [done|eauto]).
  rewrite list_lookup_fmap, Hx0. simpl.
  pose proof (Forall_lookup_1 _ _ _ _ Hlen Hx0) as Hlen0. simpl in Hlen0.
  rewrite Hlen0. simpl.
  apply ndarray_len_shape in Hlen0 as (tail0 & Hs0).
  unfold shape0. rewrite Hs0. simpl. rewrite Hb. simpl.
  destruct (ceil_div_exact n b Hn Hn53 Hb1) as (k & Hk & Hceil). rewrite Hk. simpl.
  destruct (outer_loop n k xs [] (replicate (Z.to_nat k) []) None) as (rdd' & dll' & Hrun & Hsome & Hinv).
  { nia. }
  { apply Forall_forall. intros x Hx.
    rewrite Forall_forall in Hlen. rewrite Forall_forall in Hdim.
    specialize (Hlen x Hx). specialize (Hdim x Hx).
    apply ndarray_len_shape in Hlen as (tail & Hs). exists tail. split; [done|].
    intros ->. rewrite Hs in Hdim. simpl in Hdim. lia. }
  { split; [by rewrite length_replicate|]. intros i shard Hi.
    apply lookup_replicate in Hi as [-> _]. constructor. }
  rewrite Hrun. simpl.
  destruct (Hsome Hne) as [dll ->].
  exists k, rdd', dll. done.
Qed.

Lemma shards_of_within k xs shards n b :
  shards_of k xs shards → (1 ≤ n)%nat → 1 ≤ b → (k - 1) * b < Z.of_nat n ≤ k * b →
  Forall (λ x, ndarray_len x = Ok n) xs →
  Forall (λ shard, length shard = length xs ∧ Forall (at_most_rows b) shard) shards.
Proof.
  intros [_ Hsh] Hn Hb Hk Hlen. apply Forall_lookup. intros i shard Hi.
  specialize (Hsh i shard Hi). split; [symmetry; by eapply Forall2_length|].
  clear Hi. induction Hsh as [|x part xs shard (parts & Hsplit & Hp) _ IH]; [constructor|].
  apply Forall_cons in Hlen as [Hx Hlen]. constructor; [|by apply IH].
  destruct (array_split_within x n b k Hx Hn Hb Hk) as (parts' & Hsplit' & _ & Hw).
  rewrite Hsplit in Hsplit'. injection Hsplit' as <-.
  rewrite Forall_lookup in Hw. by eapply Hw.
Qed.

(** ** The constructor and [load] *)

Lemma rindex_opt_None c s : rindex_opt c s = None ↔ ¬ has_char c s.
Proof.
  unfold has_char. induction s as [|c' s IH]; simpl.
  - split; [intros _ H; by apply elem_of_nil in H | done].
  - destruct (rindex_opt c s) as [i|].
    + split; [done|]. intros H. exfalso. apply H. right.
      destruct (decide (c ∈ list_ascii_of_string s)) as [|Hn]; [done|].
      by apply IH in Hn.
    + destruct (Ascii.eqb_spec c' c) as [->|Hne].
      * split; [done|]. intros H. exfalso. apply H. left.
      * split; [|done]. intros _ H. apply elem_of_cons in H as [->|H]; [done|].
        by apply IH in H.
Qed.

Lemma rindex_opt_Some c s i :
  rindex_opt c s = Some i →
  ∃ pre suf, s = pre +:+ String c suf ∧ ¬ has_char c suf ∧ str_take i s = pre.
Proof.
  revert i. induction s as [|c' s IH]; intros i; simpl; [done|].
  destruct (rindex_opt c s) as [j|] eqn:Hj.
  - intros [= <-]. destruct (IH j eq_refl) as (pre & suf & -> & Hsuf & Htake).
    exists (String c' pre), suf. split; [done|]. split; [done|].
    unfold str_take in *. simpl. by rewrite Htake.
  - destruct (Ascii.eqb_spec c' c) as [->|Hne]; [|done]. intros [= <-].
    exists EmptyString, s. split; [done|]. split; [by apply rindex_opt_None|].
    unfold str_take. by destruct s.
Qed.

Ltac run_M :=
  unfold model_load, model_distributed_predict, mbind, M_bind, mret, M_ret,
    raise, lift, emit, assign, attr, get_self, read_attr; simpl.

Ltac events_cases :=
  repeat match goal with
    | H : _ ∈ [] |- _ => by apply elem_of_nil in H
    | H : _ ∈ _ :: _ |- _ => apply elem_of_cons in H as [H|H]
    | H : LoadModel _ _ _ _ = LoadModel _ _ _ _ |- _ => injection H as -> -> -> ->
    | H : LoadModel _ _ _ _ = ParseXml _ |- _ => discriminate H
    | H : ParseXml _ = LoadModel _ _ _ _ |- _ => discriminate H
    | |- _ ∉ _ => intros ?
    | H : Err _ = Ok _ |- _ => discriminate H
    end.

Ltac outcome evs :=
  exists evs; split; [by rewrite <- ?app_assoc, ?app_nil_r|];
  split_and!; intros; split_and?; intros; events_cases; eauto.

(** What a run of [__init__] leaves behind: the events it adds to the log. *)
Lemma init_outcome E model_path bs w :
  ∃ evs, log (__init__ E model_path bs w).2 = log w ++ evs ∧
    (∀ api m wp b, LoadModel api m wp b ∈ evs →
       api = load_openvino_ng ∧ m = model_path ∧ replaced_extension model_path wp ∧
       batch_size (self (__init__ E model_path bs w).2) = Some b) ∧
    ((__init__ E model_path bs w).1 = Ok () →
       ∃ wp b, LoadModel load_openvino_ng model_path wp b ∈ evs) ∧
    (bs ≠ 0 → ∀ file, ParseXml file ∉ evs) ∧
    (¬ has_char "." model_path →
       (∃ e, (__init__ E model_path bs w).1 = Err e) ∧
       (∀ api m wp b, LoadModel api m wp b ∉ evs) ∧
       (bs ≠ 0 → (__init__ E model_path bs w).1 = Err ValueError)).
Proof.
  unfold __init__, rindex. run_M.
  destruct (rindex_opt "." model_path) as [i|] eqn:Hi.
  - apply rindex_opt_Some in Hi as (pre & suf & Hmp & Hsuf & Htake).
    assert (Hdot : has_char "." model_path).
    { rewrite Hmp. unfold has_char. clear. induction pre; simpl; [left|by right]. }
    assert (Hwp : replaced_extension model_path (str_take i model_path +:+ ".bin")).
    { exists pre, suf. by rewrite Htake. }
    case_decide; simpl.
    + destruct (engine_load E _ _ _ _); simpl;
        outcome [LoadModel load_openvino_ng model_path (str_take i model_path +:+ ".bin") bs];
        try done; repeat econstructor.
    + destruct (ET_parse E model_path) as [root|e]; simpl;
        [|outcome [ParseXml model_path]; done].
      destruct (find_shape_item root) as [item|]; simpl;
        [|outcome [ParseXml model_path]; done].
      destruct (py_int E (text_of item)) as [v|e]; simpl;
        [|outcome [ParseXml model_path]; done].
      destruct (engine_load E _ _ _ _); simpl;
        outcome [ParseXml model_path;
                 LoadModel load_openvino_ng model_path (str_take i model_path +:+ ".bin") v];
        try done; repeat econstructor.
  - apply rindex_opt_None in Hi. case_decide; simpl.
    + outcome (@nil event); done.
    + destruct (ET_parse E model_path) as [root|e]; simpl;
        [|outcome [ParseXml model_path]; done].
      destruct (find_shape_item root) as [item|]; simpl;
        [|outcome [ParseXml model_path]; done].
      destruct (py_int E (text_of item)) as [v|e]; simpl;
        outcome [ParseXml model_path]; done.
Qed.

(** What a run of [load] leaves behind. *)
Lemma load_outcome E model_path bs w :
  ∃ evs, log (load E model_path bs w).2 = log w ++ evs ∧
    (∀ api m wp b, LoadModel api m wp b ∈ evs →
       api = load_openvino ∧ m = model_path ∧ replaced_extension model_path wp ∧ b = bs) ∧
    ((load E model_path bs w).1 = Ok () →
       ∃ wp, LoadModel load_openvino model_path wp bs ∈ evs) ∧
    (bs ≠ 0 → ∀ file, ParseXml file ∉ evs) ∧
    (¬ has_char "." model_path →
       (∃ e, (load E model_path bs w).1 = Err e) ∧
       (∀ api m wp b, LoadModel api m wp b ∉ evs) ∧
       (bs ≠ 0 → (load E model_path bs w).1 = Err ValueError)).
Proof.
  unfold load, rindex. run_M.
  destruct (rindex_opt "." model_path) as [i|] eqn:Hi.
  - apply rindex_opt_Some in Hi as (pre & suf & Hmp & Hsuf & Htake).
    assert (Hdot : has_char "." model_path).
    { rewrite Hmp. unfold has_char. clear. induction pre; simpl; [left|by right]. }
    assert (Hwp : replaced_extension model_path (str_take i model_path +:+ ".bin")).
    { exists pre, suf. by rewrite Htake. }
    case_decide; simpl.
    + destruct (engine_load E _ _ _ _); simpl;
        outcome [LoadModel load_openvino model_path (str_take i model_path +:+ ".bin") bs];
        try done; repeat econstructor.
    + destruct (ET_parse E model_path) as [root|e]; simpl;
        [|outcome [ParseXml model_path]; done].
      destruct (find_shape_item root) as [item|]; simpl;
        [|outcome [ParseXml model_path]; done].
      destruct (py_int E (text_of item)) as [v|e]; simpl;
        [|outcome [ParseXml model_path]; done].
      destruct (engine_load E _ _ _ _); simpl;
        outcome [ParseXml model_path;
                 LoadModel load_openvino model_path (str_take i model_path +:+ ".bin") bs];
        try done; repeat econstructor.
  - apply rindex_opt_None in Hi. case_decide; simpl.
    + outcome (@nil event); done.
    + destruct (ET_parse E model_path) as [root|e]; simpl;
        [|outcome [ParseXml model_path]; done].
      destruct (find_shape_item root) as [item|]; simpl;
        [|outcome [ParseXml model_path]; done].
      destruct (py_int E (text_of item)) as [v|e]; simpl;
        outcome [ParseXml model_path]; done.
Qed.

(** The batch size [__init__] settles on. *)
Lemma init_batch_size_given E model_path bs w :
  bs ≠ 0 → batch_size (self (__init__ E model_path bs w).2) = Some bs.
Proof.
  intros Hbs. unfold __init__, rindex. run_M. rewrite decide_True by done. simpl.
  destruct (rindex_opt "." model_path); simpl; [|done].
  destruct (engine_load E _ _ _ _); done.
Qed.

Lemma init_batch_size_default E model_path w root :
  ET_parse E model_path = Ok root →
  match find_shape_item root with
  | None =>
      (__init__ E model_path 0 w).1 = Err ValueError ∧
      batch_size (self (__init__ E model_path 0 w).2) = batch_size (self w)
  | Some shape_item =>
      match py_int E (text_of shape_item) with
      | Ok v => batch_size (self (__init__ E model_path 0 w).2) = Some v
      | Err e =>
          (__init__ E model_path 0 w).1 = Err e ∧
          batch_size (self (__init__ E model_path 0 w).2) = batch_size (self w)
      end
  end.
Proof.
  intros Hparse. unfold __init__, rindex. run_M. rewrite Hparse. simpl.
  destruct (find_shape_item root) as [item|]; simpl; [|done].
  destruct (py_int E (text_of item)) as [v|e]; simpl; [|done].
  destruct (rindex_opt "." model_path); simpl; [|done].
  destruct (engine_load E _ _ _ _); done.
Qed.

Lemma init_parses_default E model_path w :
  ∃ evs, log (__init__ E model_path 0 w).2 = log w ++ ParseXml model_path :: evs.
Proof.
  unfold __init__, rindex. run_M.
  destruct (ET_parse E model_path) as [root|e]; simpl; [|by exists []].
  destruct (find_shape_item root) as [item|]; simpl; [|by exists []].
  destruct (py_int E (text_of item)) as [v|e]; simpl; [|by exists []].
  destruct (rindex_opt "." model_path); simpl; [|by exists []].
  destruct (engine_load E _ _ _ _); simpl; rewrite <- app_assoc; eauto.
Qed.

(** ** Sharded input *)

Lemma predict_transform_accepts d feature b :
  d !! "x" = Some feature → feature_within b feature →
  predict_transform (PDict d) b = Ok feature.
Proof.
  intros Hx Hw. unfold predict_transform. rewrite Hx.
  destruct feature as [| | |a|l|]; simpl in Hw; try done.
  - destruct Hw as (n & -> & Hn). simpl. by rewrite bool_decide_eq_true_2.
  - assert (for_each (λ elem, match elem with
        | PNdarray a => n ← shape0 a; py_assert (bool_decide (Z.of_nat n ≤ b))
        | _ => Err AssertionError end) l = Ok ()) as ->; [|done].
    clear Hx. induction Hw as [|e l (a & n & -> & Hs & Hn) _ IH]; simpl; [done|].
    rewrite Hs. simpl. rewrite bool_decide_eq_true_2 by done. simpl. exact IH.
Qed.

Lemma predict_transform_rejects d a n b :
  d !! "x" = Some (PNdarray a) → shape0 a = Ok n → b < Z.of_nat n →
  predict_transform (PDict d) b = Err AssertionError.
Proof.
  intros Hx Hs Hn. unfold predict_transform. rewrite Hx, Hs. simpl.
  rewrite bool_decide_eq_false_2 by lia. done.
Qed.

Lemma rdd_map_Forall2 {A B} (f : A → result B) (r : rdd A) (s : rdd B) :
  rdd_map f r = Ok s ↔ Forall2 (Forall2 (λ x y, f x = Ok y)) r s.
Proof.
  unfold rdd_map, rdd in *. split; intros H.
  - apply map_result_Forall2 in H. eapply Forall2_impl; [exact H|].
    intros p q Hpq. by apply map_result_Forall2.
  - apply map_result_Forall2. eapply Forall2_impl; [exact H|].
    intros p q Hpq. by apply map_result_Forall2.
Qed.

Lemma map_result_Err {A B} (f : A → result B) l x e :
  x ∈ l → f x = Err e → ∃ e', map_result f l = Err e'.
Proof.
  intros Hin Hx. induction l as [|y l IH]; [by apply elem_of_nil in Hin|].
  simpl. apply elem_of_cons in Hin as [<-|Hin].
  - rewrite Hx. eauto.
  - destruct (f y); simpl; [|eauto]. destruct (IH Hin) as [e' ->]. eauto.
Qed.

Lemma zip_map_list {A B C} (f : A * B → result C) l k :
  Forall2 (λ x y, ∃ z, f (x, y) = Ok z) l k →
  ∃ ps res, zip_exact l k = Ok ps ∧ map_result f ps = Ok res ∧
    Forall3 (λ x y z, f (x, y) = Ok z) l k res.
Proof.
  induction 1 as [|x y l k [z Hz] _ (ps & res & Hzip & Hmap & Hall)]; simpl.
  - exists [], []. split_and!; [done..|constructor].
  - rewrite Hzip. simpl. exists ((x, y) :: ps), (z :: res). simpl.
    rewrite Hz, Hmap. split_and!; [done..|by constructor].
Qed.

Lemma rdd_zip_map {A B C} (f : A * B → result C) (r : rdd A) (s : rdd B) :
  Forall2 (Forall2 (λ x y, ∃ z, f (x, y) = Ok z)) r s →
  ∃ zipped res, rdd_zip r s = Ok zipped ∧ rdd_map f zipped = Ok res ∧
    Forall3 (Forall3 (λ x y z, f (x, y) = Ok z)) r s res.
Proof.
  unfold rdd_zip, rdd_map.
  induction 1 as [|p q r s Hpq _ (zipped & res & Hzip & Hmap & Hall)]; simpl.
  - exists [], []. split_and!; [done..|constructor].
  - apply bind_Ok in Hzip as (ps & Hps & Hzs). rewrite Hps. simpl.
    destruct (zip_map_list f p q Hpq) as (pq & res1 & Hz1 & Hm1 & Hall1).
    rewrite Hz1, Hzs. simpl. exists (pq :: zipped), (res1 :: res). simpl.
    rewrite Hm1, Hmap. split_and!; [done..|by constructor].
Qed.

Lemma slice_prefix y m tail k :
  shape y = m :: tail → (k ≤ m)%nat →
  ∃ y', slice y 0 k = Ok y' ∧ shape y' = k :: tail.
Proof.
  intros Hs Hk. unfold slice. rewrite Hs. eexists. split; [done|]. simpl.
  f_equal. lia.
Qed.

Lemma update_shard_extends b shard feature y :
  shard_with_feature b shard feature → output_covers feature y →
  ∃ r, update_shard (shard, y) = Ok r ∧ extended_with_prediction shard y r.
Proof.
  intros (d & -> & Hx & _) (k & m & Hk & Hm & Hkm).
  apply ndarray_len_shape in Hm as (tail & Hs).
  destruct (slice_prefix y m tail k Hs Hkm) as (y' & Hslice & Hs').
  unfold update_shard. simpl. rewrite Hx. simpl. rewrite Hk. simpl. rewrite Hslice. simpl.
  eexists. split; [done|]. exists d, feature, k, y'. split_and!; try done.
  apply ndarray_len_shape. eauto.
Qed.

Lemma predict_xshards_returns E this logs b shards features outs :
  ready this b →
  Forall2 (Forall2 (shard_with_feature b)) shards features →
  engine_distributed_predict E features = Ok outs →
  Forall2 (Forall2 output_covers) features outs →
  ∃ res,
    predict_xshards E shards {| self := this; log := logs |}
    = (Ok (SparkXShards res), {| self := this; log := logs ++ [DistributedPredict features] |}) ∧
    Forall3 (Forall3 extended_with_prediction) shards outs res.
Proof.
  intros [Hb [m Hm]] Hshards Hengine Houts.
  assert (Htrans : rdd_map (λ shard, predict_transform shard b) shards = Ok features).
  { apply rdd_map_Forall2. eapply Forall2_impl; [exact Hshards|]. intros p q Hpq.
    eapply Forall2_impl; [exact Hpq|]. intros shard feature (d & -> & Hx & Hw).
    by apply predict_transform_accepts. }
  assert (Hupd : Forall2 (Forall2 (λ shard y, ∃ r, update_shard (shard, y) = Ok r ∧
                    extended_with_prediction shard y r)) shards outs).
  { clear -Hshards Houts. revert outs Houts.
    induction Hshards as [|p q shards features Hpq _ IH]; intros outs Houts.
    - inversion Houts. constructor.
    - inversion Houts as [|? o ? outs' Ho Houts']; subst. constructor; [|by apply IH].
      clear -Hpq Ho. revert o Ho. induction Hpq as [|shard feature p q Hsf _ IH]; intros o Ho.
      + inversion Ho. constructor.
      + inversion Ho as [|? y ? o' Hy Ho']; subst. constructor; [|by apply IH].
        by eapply update_shard_extends. }
  destruct (rdd_zip_map update_shard shards outs) as (zipped & res & Hzip & Hmap & Hall).
  { eapply Forall2_impl; [exact Hupd|]. intros p o Hpo.
    eapply Forall2_impl; [exact Hpo|]. intros shard y (r & Hr & _). eauto. }
  exists res. split.
  - unfold predict_xshards. run_M. rewrite Hb. simpl. rewrite Htrans. simpl.
    rewrite Hm. simpl. rewrite Hengine. simpl. rewrite Hzip. simpl. rewrite Hmap. done.
  - clear -Hall Hupd. revert Hupd.
    induction Hall as [|p o rp shards outs res Hpo _ IH]; intros Hupd; [constructor|].
    apply Forall2_cons in Hupd as [Hupd1 Hupd]. constructor; [|by apply IH].
    clear -Hpo Hupd1. revert Hupd1.
    induction Hpo as [|shard y r p o rp Hr _ IH]; intros Hupd1; [constructor|].
    apply Forall2_cons in Hupd1 as [(r' & Hr' & Hext) Hupd1]. constructor; [|by apply IH].
    by replace r with r' by congruence.
Qed.

(** ** Reassembly and the assertions of the list branch *)

Lemma for_fold_app {A S} (body : S → A → result S) s l1 l2 :
  for_fold body s (l1 ++ l2) = for_fold body s l1 ≫= λ s', for_fold body s' l2.
Proof.
  revert s. induction l1 as [|x l1 IH]; intros s; simpl; [done|].
  destruct (body s x) as [s'|e]; simpl; [apply IH | done].
Qed.

Lemma trim_results_from outs : ∀ pre lens tail,
  Forall2 (λ y m, ∃ my, shape y = my :: tail ∧ (m ≤ my)%nat) outs lens →
  ∃ trimmed,
    map_result (λ p : nat * ndarray,
        match (pre ++ lens) !! p.1 with
        | Some k => slice p.2 0 k
        | None => Err IndexError
        end) (zip (seq (length pre) (length outs)) outs) = Ok trimmed ∧
    Forall2 (λ t m, shape t = m :: tail) trimmed lens.
Proof.
  induction outs as [|y outs IH]; intros pre lens tail Hall.
  - inversion Hall; subst. exists []. split; [done|constructor].
  - inversion Hall as [|? m ? lens' (my & Hs & Hm) Hall']; subst. simpl.
    rewrite lookup_app_r by lia. rewrite Nat.sub_diag. simpl.
    destruct (slice_prefix y my tail m Hs Hm) as (y' & Hslice & Hs').
    rewrite Hslice. simpl.
    destruct (IH (pre ++ [m]) lens' tail Hall') as (trimmed & Hrun & Htr).
    rewrite length_app in Hrun. simpl in Hrun.
    replace (length pre + 1)%nat with (S (length pre)) in Hrun by lia.
    rewrite <- app_assoc in Hrun. simpl in Hrun. rewrite Hrun. simpl.
    exists (y' :: trimmed). split; [done | by constructor].
Qed.

Lemma trim_results_ok outs lens tail :
  Forall2 (λ y m, ∃ my, shape y = my :: tail ∧ (m ≤ my)%nat) outs lens →
  ∃ trimmed, trim_results outs (Some lens) = Ok trimmed ∧
    Forall2 (λ t m, shape t = m :: tail) trimmed lens.
Proof. intros Hall. exact (trim_results_from outs [] lens tail Hall). Qed.

Lemma concatenate_ok trimmed lens tail :
  trimmed ≠ [] → Forall2 (λ t m, shape t = m :: tail) trimmed lens →
  ∃ r, concatenate trimmed = Ok r ∧ shape r = sum_list lens :: tail.
Proof.
  intros Hne Hall. unfold concatenate.
  destruct trimmed as [|first rest]; [done|].
  inversion Hall as [|? m ? lens' Hfirst Hall']; subst. rewrite Hfirst.
  assert (map_result (λ a, match shape a with
            | [] => Err ValueError
            | n :: tail' => if decide (tail' = tail) then Ok n else Err ValueError
            end) (first :: rest) = Ok (m :: lens')) as ->.
  { apply map_result_Forall2. eapply Forall2_impl; [exact Hall|].
    intros t k Ht. simpl in Ht. rewrite Ht. by rewrite decide_True. }
  simpl. eauto.
Qed.

Lemma split_ndarray_lens this data n b k arrays lens :
  batch_size this = Some b → ndarray_len data = Ok n →
  split_ndarray this data = Ok (k, arrays, lens) →
  0 < k ∧ length arrays = Z.to_nat k ∧ sum_list lens = n ∧
  Forall2 (λ c m, ndarray_len c = Ok m) arrays lens.
Proof.
  intros Hb Hlen. unfold split_ndarray. rewrite Hlen, Hb. simpl.
  destruct (ceil_div n b) as [k'|] eqn:Hk; simpl; [|done].
  destruct (array_split data k') as [parts0|] eqn:Hsplit0; simpl; [|done].
  pose proof (array_split_sections data k' parts0 Hsplit0) as Hk'.
  apply ndarray_len_shape in Hlen as (tail & Hs).
  destruct (array_split_parts data n tail k' Hs Hk') as (parts & Hsplit & Hl & Hshape).
  rewrite Hsplit in Hsplit0. injection Hsplit0 as <-.
  destruct (map_result ndarray_len parts) as [lens'|] eqn:Hlens; simpl; [|done].
  intros [= <- <- <-]. apply map_result_Forall2 in Hlens.
  split; [done|]. split; [done|]. split; [|done].
  assert (lens' = section_size n (Z.to_nat k') <$> seq 0 (Z.to_nat k')) as ->.
  { apply list_eq. intros i. rewrite list_lookup_fmap.
    destruct (decide (i < Z.to_nat k')%nat) as [Hi|Hi].
    - rewrite lookup_seq_lt by done. simpl.
      destruct (lookup_lt_is_Some_2 parts i ltac:(lia)) as [p Hp].
      destruct (Forall2_lookup_l _ _ _ _ _ Hlens Hp) as (m & Hm & Hpm).
      rewrite Hm. f_equal. apply ndarray_len_shape in Hpm as (t & Ht).
      rewrite (Hshape i p Hp) in Ht. by injection Ht as ->.
    - rewrite lookup_seq_ge by lia. simpl. apply lookup_ge_None.
      rewrite <- (Forall2_length _ _ _ Hlens). lia. }
  apply section_size_sum. lia.
Qed.

(** The array branch returns one row per input row: the chunks go to the
    engine, every answer is cut to the length recorded for its chunk, and the
    pieces are joined. *)
Lemma predict_ndarray_returns_all_rows E this logs fc data n b k arrays lens outs tail :
  ready this b → 1 ≤ b → (1 ≤ n)%nat → ndarray_len data = Ok n →
  split_ndarray this data = Ok (k, arrays, lens) →
  engine_distributed_predict E (sc_parallelize E (PNdarray <$> arrays) k) = Ok outs →
  Forall2 (λ c y, ∃ m my, ndarray_len c = Ok m ∧ shape y = my :: tail ∧ (m ≤ my)%nat)
    arrays (collect outs) →
  ∃ r, (predict E (Value (PNdarray data)) fc {| self := this; log := logs |}).1
       = Ok (Value (PNdarray r)) ∧
       shape r = n :: tail.
Proof.
  intros [Hb [mo Hmo]] Hb1 Hn Hlen Hsplit Hengine Houts.
  destruct (split_ndarray_lens this data n b k arrays lens Hb Hlen Hsplit)
    as (Hk & Hl & Hsum & Hlens).
  assert (Hcov : Forall2 (λ y m, ∃ my, shape y = my :: tail ∧ (m ≤ my)%nat) (collect outs) lens).
  { clear -Houts Hlens. revert lens Hlens. generalize dependent (collect outs).
    intros ys Hys.
    induction Hys as [|c y cs ys (m & my & Hm & Hy & Hle) _ IH]; intros lens Hlens.
    - inversion Hlens. constructor.
    - inversion Hlens as [|? m' ? lens' Hm' Hlens']; subst.
      constructor; [|by apply IH]. exists my. split; [done|]. congruence. }
  destruct (trim_results_ok (collect outs) lens tail Hcov) as (trimmed & Htrim & Htr).
  destruct (concatenate_ok trimmed lens tail) as (r & Hcat & Hr); [|done|].
  { intros ->. inversion Htr; subst. apply Forall2_length in Hlens.
    rewrite Hl in Hlens. simpl in Hlens. lia. }
  exists r. split; [|by rewrite Hr, Hsum].
  simpl. unfold predict_ndarray. run_M. rewrite Hsplit. simpl. rewrite Hmo. simpl.
  rewrite Hengine. simpl. unfold reassemble. rewrite Htrim. simpl. by rewrite Hcat.
Qed.

(** In the list branch, for a batch size and a number of rows below [2^53],
    an element that is not an array, or an array of another length, fails its
    assertion once the elements before it went through the loop, and nothing
    has been sent to the engine. *)
Lemma predict_list_asserts_later_elements E this logs fc l pre bad post n b :
  ready this b → 1 ≤ b < 2 ^ 53 → (1 ≤ n)%nat → Z.of_nat n < 2 ^ 53 →
  nest_flatten E (PList l) = (PNdarray <$> pre) ++ bad :: post → pre ≠ [] →
  Forall (λ x, ndarray_len x = Ok n) pre →
  Forall (λ x, (2 ≤ length (shape x))%nat) pre →
  is_ndarray bad = false ∨ (∃ a m, bad = PNdarray a ∧ ndarray_len a = Ok m ∧ m ≠ n) →
  predict E (Value (PList l)) fc {| self := this; log := logs |}
  = (Err AssertionError, {| self := this; log := logs |}).
Proof.
  intros [Hb _] Hb1 Hn Hn53 Hflat Hne Hlen Hdim Hbad.
  assert (split_list E this (PList l) = Err AssertionError) as Hsplit.
  { unfold split_list. rewrite Hflat.
    assert (∃ x0, pre !! 0%nat = Some x0) as [x0 Hx0] by (destruct pre; [done|eauto]).
    rewrite lookup_app_l by (rewrite length_fmap; by eapply lookup_lt_Some).
    rewrite list_lookup_fmap, Hx0. simpl.
    pose proof (Forall_lookup_1 _ _ _ _ Hlen Hx0) as Hlen0. simpl in Hlen0.
    rewrite Hlen0. simpl.
    apply ndarray_len_shape in Hlen0 as (tail0 & Hs0).
    unfold shape0. rewrite Hs0. simpl. rewrite Hb. simpl.
    destruct (ceil_div_exact n b Hn Hn53 Hb1) as (k & Hk & Hceil). rewrite Hk. simpl.
    rewrite for_fold_app.
    destruct (outer_loop n k pre [] (replicate (Z.to_nat k) []) None)
      as (rdd' & dll' & Hrun & _ & _).
    { nia. }
    { apply Forall_forall. intros x Hx.
      rewrite Forall_forall in Hlen. rewrite Forall_forall in Hdim.
      specialize (Hlen x Hx). specialize (Hdim x Hx).
      apply ndarray_len_shape in Hlen as (tail & Hs). exists tail. split; [done|].
      intros ->. rewrite Hs in Hdim. simpl in Hdim. lia. }
    { split; [by rewrite length_replicate|]. intros i shard Hi.
      apply lookup_replicate in Hi as [-> _]. constructor. }
    rewrite Hrun. simpl.
    destruct Hbad as [Hbad|(a & m & -> & Hm & Hne')].
    - destruct bad; try done.
    - simpl. rewrite Hm. simpl. by rewrite bool_decide_eq_false_2. }
  simpl. unfold predict_list. run_M. by rewrite Hsplit.
Qed.

Lemma predict_xshards_rejects E this logs b shards p d a n :
  ready this b → p ∈ shards → PDict d ∈ p →
  d !! "x" = Some (PNdarray a) → shape0 a = Ok n → b < Z.of_nat n →
  ∃ e, predict_xshards E shards {| self := this; log := logs |}
       = (Err e, {| self := this; log := logs |}).
Proof.
  intros [Hb _] Hp Hd Hx Hs Hn.
  pose proof (predict_transform_rejects d a n b Hx Hs Hn) as Hrej.
  destruct (map_result_Err (λ shard, predict_transform shard b) p (PDict d) _ Hd Hrej) as [e1 He1].
  destruct (map_result_Err (map_result (λ shard, predict_transform shard b)) shards p _ Hp He1)
    as [e2 He2].
  exists e2. unfold predict_xshards, rdd_map. run_M. rewrite Hb. simpl. by rewrite He2.
Qed.

(** When the rows are one more than [k * b] and the float quotient rounds
    down to [k], the first of the [k] chunks has [b + 1] rows. *)
Lemma split_ndarray_uneven E this logs fc data n tail b k :
  ready this b → shape data = n :: tail → 0 < b → 1 < k →
  ceil_div n b = Ok k → Z.of_nat n = k * b + 1 →
  ∃ arrays lens first,
    split_ndarray this data = Ok (k, arrays, lens) ∧
    array_split data k = Ok arrays ∧
    length arrays = Z.to_nat k ∧
    arrays !! 0%nat = Some first ∧
    ndarray_len first = Ok (Z.to_nat (b + 1)) ∧
    ¬ at_most_rows b first ∧
    log (predict E (Value (PNdarray data)) fc {| self := this; log := logs |}).2
    = logs ++ [DistributedPredict (sc_parallelize E (PNdarray <$> arrays) k)].
Proof.
  intros Hready Hs Hb Hk Hceil Hn.
  destruct (array_split_parts data n tail k Hs ltac:(lia)) as (parts & Hsplit & Hl & Hshape).
  assert (∃ lens, map_result ndarray_len parts = Ok lens) as [lens Hlens].
  { exists ((λ p, hd 0%nat (shape p)) <$> parts). apply map_result_total.
    intros p Hp. apply list_elem_of_lookup in Hp as [i Hi].
    unfold ndarray_len. by rewrite (Hshape i p Hi). }
  assert (Hrun : split_ndarray this data = Ok (k, parts, lens)).
  { assert (ndarray_len data = Ok n) as Hdata by (apply ndarray_len_shape; eauto).
    unfold split_ndarray. rewrite Hdata. simpl.
    rewrite (proj1 Hready). simpl. rewrite Hceil. simpl. rewrite Hsplit. simpl.
    by rewrite Hlens. }
  destruct (lookup_lt_is_Some_2 parts 0%nat ltac:(lia)) as [first Hfirst].
  assert (Hlen : ndarray_len first = Ok (Z.to_nat (b + 1))).
  { unfold ndarray_len. rewrite (Hshape 0%nat first Hfirst). f_equal.
    unfold section_size. set (K := Z.to_nat k).
    assert (n = (K * Z.to_nat b + 1)%nat) as Hnat by nia.
    assert (1 < K)%nat as HK by lia.
    rewrite <- (Nat.div_unique n K (Z.to_nat b) 1 HK Hnat).
    rewrite <- (Nat.mod_unique n K (Z.to_nat b) 1 HK Hnat).
    rewrite decide_True by lia. lia. }
  exists parts, lens, first. do 5 (split; [done|]). split.
  - intros (m & Hm & Hle). rewrite Hlen in Hm. injection Hm as <-. lia.
  - apply (predict_ndarray_log E this logs data k parts lens Hrun). apply Hready.
Qed.

(** ** The claims *)

(** Claim C1, as stated, fails for lengths that floats do not hold exactly.
    [math.ceil(len(data) / self.batch_size)] divides in floating point: for
    [long_rows = (2^24 + 1) * wide_batch + 1] rows and a batch size of
    [wide_batch = 2^31 - 1] the quotient rounds to [2^24 + 1], one chunk less
    than the rows need, and the first chunk sent to the engine has
    [wide_batch + 1] rows. *)
Lemma chunk_larger_than_batch_size :
  ndarray_len long_array = Ok (Z.to_nat long_rows) ∧
  Z.of_nat (Z.to_nat long_rows) = long_rows ∧
  (2 ^ 24 + 1) * wide_batch < long_rows ∧
  ceil_div (Z.to_nat long_rows) wide_batch = Ok (2 ^ 24 + 1) ∧
  ∃ arrays lens first,
    split_ndarray (loaded_estimator wide_batch) long_array = Ok (2 ^ 24 + 1, arrays, lens) ∧
    array_split long_array (2 ^ 24 + 1) = Ok arrays ∧
    length arrays = Z.to_nat (2 ^ 24 + 1) ∧
    arrays !! 0%nat = Some first ∧
    ndarray_len first = Ok (Z.to_nat (wide_batch + 1)) ∧
    ¬ at_most_rows wide_batch first ∧
    log (predict (sample_env sample_files 4) (Value (PNdarray long_array)) PNone
           {| self := loaded_estimator wide_batch; log := [] |}).2
    = [] ++ [DistributedPredict
               (sc_parallelize (sample_env sample_files 4) (PNdarray <$> arrays) (2 ^ 24 + 1))].
Proof.
  assert (Hid : Z.of_nat (Z.to_nat long_rows) = long_rows).
  { apply Z2Nat.id. vm_compute. discriminate. }
  assert (Hceil : ceil_div (Z.to_nat long_rows) wide_batch = Ok (2 ^ 24 + 1)).
  { unfold ceil_div. rewrite Hid. vm_compute. reflexivity. }
  split; [reflexivity|]. split; [exact Hid|]. split; [vm_compute; reflexivity|].
  split; [exact Hceil|].
  apply (split_ndarray_uneven (sample_env sample_files 4) (loaded_estimator wide_batch) []
           PNone long_array (Z.to_nat long_rows) [0%nat] wide_batch (2 ^ 24 + 1)).
  - split; [reflexivity | eexists; reflexivity].
  - reflexivity.
  - vm_compute. reflexivity.
  - vm_compute. reflexivity.
  - exact Hceil.
  - rewrite Hid. vm_compute. reflexivity.
Qed.

(** Claim C1, amended.  On an estimator with batch size [b] and for a number
    of rows [n], both at least 1 and below [2^53], [math.ceil(n / b)] is [k],
    the quotient rounded up.  An array of [n] rows is split by [array_split]
    into [k] chunks of at most [b] rows, whose lengths are recorded and add up
    to [n], and these chunks are what [predict] sends to the engine.  Every
    array of a list of arrays with [n] rows each is split by [array_split]
    into [k] parts of at most [b] rows; when the arrays have at least two
    dimensions the loops of the list branch complete, and shard [i] sent to
    the engine holds part [i] of every array. *)
Theorem predict_chunks_within_batch_size
    (E : externals) (this : estimator) (logs : list event) (fc : pyval) (b : Z) (n : nat) :
  ready this b → 1 ≤ b < 2 ^ 53 → (1 ≤ n)%nat → Z.of_nat n < 2 ^ 53 →
  ∃ k : Z, ceil_div n b = Ok k ∧ (k - 1) * b < Z.of_nat n ≤ k * b ∧
    (∀ data, ndarray_len data = Ok n →
      ∃ arrays lens,
        array_split data k = Ok arrays ∧
        length arrays = Z.to_nat k ∧
        Forall (at_most_rows b) arrays ∧
        Forall2 (λ c m, ndarray_len c = Ok m) arrays lens ∧
        sum_list lens = n ∧
        split_ndarray this data = Ok (k, arrays, lens) ∧
        log (predict E (Value (PNdarray data)) fc {| self := this; log := logs |}).2
        = logs ++ [DistributedPredict (sc_parallelize E (PNdarray <$> arrays) k)]) ∧
    (∀ l xs,
      nest_flatten E (PList l) = PNdarray <$> xs → xs ≠ [] →
      Forall (λ x, ndarray_len x = Ok n) xs →
      Forall (λ x, ∃ parts,
          array_split x k = Ok parts ∧
          length parts = Z.to_nat k ∧
          Forall (at_most_rows b) parts) xs ∧
      (Forall (λ x, (2 ≤ length (shape x))%nat) xs →
        ∃ shards dll,
          split_list E this (PList l) = Ok (k, shards, dll) ∧
          shards_of k xs shards ∧
          Forall (λ shard, length shard = length xs ∧ Forall (at_most_rows b) shard) shards ∧
          log (predict E (Value (PList l)) fc {| self := this; log := logs |}).2
          = logs ++ [DistributedPredict (sc_parallelize E (pack_shards E (PList l) shards) k)])).
Proof.
  intros Hready Hb Hn Hn53.
  destruct (ceil_div_exact n b Hn Hn53 Hb) as (k & Hceil & Hbounds).
  exists k. split; [done|]. split; [done|]. split.
  - intros data Hlen.
    destruct (split_ndarray_chunks this data n b Hready Hb Hn Hn53 Hlen)
      as (k' & arrays & lens & Hsplit & Hceil' & _ & Harr & Hl & Hw & Hlens).
    assert (k' = k) as -> by congruence.
    destruct (split_ndarray_lens this data n b k arrays lens (proj1 Hready) Hlen Hsplit)
      as (_ & _ & Hsum & _).
    exists arrays, lens. do 6 (split; [done|]).
    apply (predict_ndarray_log E this logs data k arrays lens); [done | apply Hready].
  - intros l xs Hflat Hne Hxs. split.
    + apply Forall_forall. intros x Hx. rewrite Forall_forall in Hxs.
      apply (array_split_within x n b k (Hxs x Hx)); [done|lia|done].
    + intros Hdim.
      destruct (split_list_shards E this l xs n b Hready Hb Hn Hn53 Hflat Hne Hxs Hdim)
        as (k' & shards & dll & Hsl & Hceil' & Hsh).
      assert (k' = k) as -> by congruence.
      exists shards, (Some dll). split; [done|]. split; [done|]. split.
      * apply (shards_of_within k xs shards n b); [done|done|lia|done|done].
      * apply (predict_list_log E this logs (PList l) k shards (Some dll)); [done | apply Hready].
Qed.

(** An array, and a list of two arrays, of twenty-two rows on an estimator of
    batch size four. *)
Lemma predict_chunks_within_batch_size_witness :
  ∃ k : Z, ceil_div 22 4 = Ok k ∧ (k - 1) * 4 < Z.of_nat 22 ≤ k * 4 ∧
    (∃ arrays lens,
        array_split (zeros 22 2) k = Ok arrays ∧
        length arrays = Z.to_nat k ∧
        Forall (at_most_rows 4) arrays ∧
        Forall2 (λ c m, ndarray_len c = Ok m) arrays lens ∧
        sum_list lens = 22%nat ∧
        split_ndarray (loaded_estimator 4) (zeros 22 2) = Ok (k, arrays, lens) ∧
        log (predict (sample_env sample_files 4) (Value (PNdarray (zeros 22 2))) PNone
               {| self := loaded_estimator 4; log := [] |}).2
        = [] ++ [DistributedPredict
                   (sc_parallelize (sample_env sample_files 4) (PNdarray <$> arrays) k)]) ∧
    (∃ shards dll,
        split_list (sample_env sample_files 4) (loaded_estimator 4)
          (PList [PNdarray (zeros 22 2); PNdarray (zeros 22 3)]) = Ok (k, shards, dll) ∧
        shards_of k [zeros 22 2; zeros 22 3] shards ∧
        Forall (λ shard, length shard = 2%nat ∧ Forall (at_most_rows 4) shard) shards ∧
        log (predict (sample_env sample_files 4)
               (Value (PList [PNdarray (zeros 22 2); PNdarray (zeros 22 3)])) PNone
               {| self := loaded_estimator 4; log := [] |}).2
        = [] ++ [DistributedPredict
                   (sc_parallelize (sample_env sample_files 4)
                      (pack_shards (sample_env sample_files 4)
                         (PList [PNdarray (zeros 22 2); PNdarray (zeros 22 3)]) shards) k)]).
Proof.
  destruct (predict_chunks_within_batch_size (sample_env sample_files 4)
              (loaded_estimator 4) [] PNone 4 22)
    as (k & Hk & Hbounds & Harr & Hlist).
  - split; [reflexivity | eexists; reflexivity].
  - lia.
  - lia.
  - lia.
  - exists k. split; [exact Hk|]. split; [exact Hbounds|]. split.
    + apply (Harr (zeros 22 2)). reflexivity.
    + destruct (Hlist [PNdarray (zeros 22 2); PNdarray (zeros 22 3)]
                  [zeros 22 2; zeros 22 3]) as [_ Hshards].
      * reflexivity.
      * discriminate.
      * repeat constructor.
      * apply Hshards. repeat constructor.
Defined.

(** Claim C2, on the list branch.  A list holding one array of five rows of
    three entries, on an estimator of batch size three whose engine answers
    every chunk with three rows: the chunks have three and two rows, but
    [data_length_list] is left as the lengths of the rows of the last part,
    [[3; 3]], so the second answer keeps its padding row and [predict] returns
    six rows for five rows of input. *)
Lemma predict_list_keeps_padding_rows :
  nest_flatten (sample_env sample_files 3) (PList [PNdarray (zeros 5 3)]) = [PNdarray (zeros 5 3)] ∧
  split_list (sample_env sample_files 3) (loaded_estimator 3) (PList [PNdarray (zeros 5 3)])
  = Ok (2, [[zeros 3 3]; [zeros 2 3]], Some [3%nat; 3%nat]) ∧
  predict (sample_env sample_files 3) (Value (PList [PNdarray (zeros 5 3)])) PNone (loaded_world 3)
  = (Ok (Value (PNdarray (zeros 6 1))),
     {| self := loaded_estimator 3;
        log := [DistributedPredict [[PList [PNdarray (zeros 3 3)]];
                                    [PList [PNdarray (zeros 2 3)]]]] |}).
Proof. repeat split; reflexivity. Qed.

(** Claim C3, as stated, fails.  A single shard whose feature has two rows,
    on an estimator of batch size one: [predict] raises the assertion of
    [predict_transform]; the shard is neither split nor predicted, and the
    engine is not called. *)
Lemma xshards_oversized_shard_rejected :
  shape0 (zeros 2 1) = Ok 2%nat ∧
  predict (sample_env sample_files 1)
    (SparkXShards [[PDict {["x" := PNdarray (zeros 2 1)]}]]) PNone (loaded_world 1)
  = (Err AssertionError, loaded_world 1).
Proof. split; reflexivity. Qed.

(** Claim C3, amended.  For a sharded input, a shard whose feature is an
    array of more than [b] rows is rejected by the assertion of
    [predict_transform], and [predict] then fails without calling the engine
    and without changing the estimator; when the feature of every shard is an
    array of at most [b] rows and the engine answers every shard with at
    least as many rows as the feature has, [predict] returns, for every shard,
    a prediction with exactly one row per row of the feature. *)
Theorem predict_xshards_requires_shards_within_batch_size
    (E : externals) (this : estimator) (logs : list event) (fc : pyval) (b : Z)
    (shards : rdd pyval) :
  ready this b →
  (∀ p d a n,
      p ∈ shards → PDict d ∈ p →
      d !! "x" = Some (PNdarray a) → shape0 a = Ok n → b < Z.of_nat n →
      predict_transform (PDict d) b = Err AssertionError ∧
      ∃ e, predict E (SparkXShards shards) fc {| self := this; log := logs |}
           = (Err e, {| self := this; log := logs |})) ∧
  (∀ features outs,
      Forall2 (Forall2 (λ shard feature,
          shard_with_feature b shard feature ∧ is_ndarray feature = true)) shards features →
      engine_distributed_predict E features = Ok outs →
      Forall2 (Forall2 output_covers) features outs →
      ∃ res,
        (predict E (SparkXShards shards) fc {| self := this; log := logs |}).1
        = Ok (SparkXShards res) ∧
        Forall3 (Forall3 (λ shard y r, ∃ d a n y',
            shard = PDict d ∧ d !! "x" = Some (PNdarray a) ∧ ndarray_len a = Ok n ∧
            r = PDict (<["prediction" := PNdarray y']> d) ∧
            ndarray_len y' = Ok n)) shards outs res).
Proof.
  intros Hready. split.
  - intros p d a n Hp Hd Hx Hs Hn. split; [by eapply predict_transform_rejects|].
    by eapply predict_xshards_rejects.
  - intros features outs Hshards Hengine Houts.
    destruct (predict_xshards_returns E this logs b shards features outs Hready)
      as (res & Hrun & Hall); [|done..|].
    { eapply Forall2_impl; [exact Hshards|]. intros p q Hpq.
      eapply Forall2_impl; [exact Hpq|]. by intros ?? [? _]. }
    exists res. split; [simpl; by rewrite Hrun|].
    clear Hrun Hengine Houts. revert features Hshards.
    induction Hall as [|p o rp shards outs res Hpo _ IH]; intros features Hshards; [constructor|].
    inversion Hshards as [|? q ? features' Hpq Hshards']; subst.
    constructor; [|by eapply IH].
    clear -Hpo Hpq. revert q Hpq.
    induction Hpo as [|shard y r p o rp Hr _ IH]; intros q Hpq; [constructor|].
    inversion Hpq as [|? feature ? q' [Hsf Harr] Hpq']; subst.
    constructor; [|by eapply IH].
    destruct Hr as (d & x & k & y' & -> & Hx & Hk & _ & Hy' & ->).
    destruct Hsf as (d' & [= <-] & Hx' & _).
    assert (x = feature) as -> by congruence.
    destruct feature as [| | |a| |]; try done.
    exists d, a, k, y'. done.
Qed.

(** A shard of two rows on an estimator of batch size one. *)
Lemma predict_xshards_requires_shards_within_batch_size_witness :
  ∃ e, predict (sample_env sample_files 1)
         (SparkXShards [[PDict {["x" := PNdarray (zeros 2 1)]}]]) PNone
         {| self := loaded_estimator 1; log := [] |}
       = (Err e, {| self := loaded_estimator 1; log := [] |}).
Proof.
  destruct (predict_xshards_requires_shards_within_batch_size (sample_env sample_files 1)
              (loaded_estimator 1) [] PNone 1 [[PDict {["x" := PNdarray (zeros 2 1)]}]])
    as [Hrej _].
  - split; [reflexivity | eexists; reflexivity].
  - apply (Hrej [PDict {["x" := PNdarray (zeros 2 1)]}] {["x" := PNdarray (zeros 2 1)]}
             (zeros 2 1) 2%nat).
    + left.
    + left.
    + reflexivity.
    + reflexivity.
    + lia.
Defined.

(** Claim C4.  For a sharded input whose shards are dictionaries with a
    feature under ["x"] of at most [b] rows (an array, or a list of such
    arrays), and an engine that answers every shard with at least
    [len(shard["x"])] rows, [predict] returns a [SparkXShards] with the same
    number of shards in every partition, each shard being the input dictionary
    with ["prediction"] set to the answer cut to [len(shard["x"])] rows; the
    engine is called once, on the features. *)
Theorem predict_xshards_extends_shards_with_prediction
    (E : externals) (this : estimator) (logs : list event) (fc : pyval) (b : Z)
    (shards features : rdd pyval) (outs : rdd ndarray) :
  ready this b →
  Forall2 (Forall2 (shard_with_feature b)) shards features →
  engine_distributed_predict E features = Ok outs →
  Forall2 (Forall2 output_covers) features outs →
  ∃ res,
    predict E (SparkXShards shards) fc {| self := this; log := logs |}
    = (Ok (SparkXShards res),
       {| self := this; log := logs ++ [DistributedPredict features] |}) ∧
    length <$> res = length <$> shards ∧
    Forall3 (Forall3 extended_with_prediction) shards outs res.
Proof.
  intros Hready Hshards Hengine Houts.
  destruct (predict_xshards_returns E this logs b shards features outs Hready Hshards Hengine Houts)
    as (res & Hrun & Hall).
  exists res. split; [exact Hrun|]. split; [|done].
  clear -Hall. induction Hall as [|p o rp shards outs res Hpo _ IH]; simpl; [done|].
  f_equal; [|done]. symmetry. by eapply Forall3_length_lr.
Qed.

(** Two partitions with a shard of four rows and a shard of two rows, on an
    estimator of batch size four. *)
Lemma predict_xshards_extends_shards_with_prediction_witness :
  ∃ res,
    predict (sample_env sample_files 4)
      (SparkXShards [[PDict {["x" := PNdarray (zeros 4 1)]}];
                     [PDict {["x" := PNdarray (zeros 2 1)]}]]) PNone
      {| self := loaded_estimator 4; log := [] |}
    = (Ok (SparkXShards res),
       {| self := loaded_estimator 4;
          log := [] ++ [DistributedPredict [[PNdarray (zeros 4 1)]; [PNdarray (zeros 2 1)]]] |}) ∧
    length <$> res = [1%nat; 1%nat] ∧
    Forall3 (Forall3 extended_with_prediction)
      [[PDict {["x" := PNdarray (zeros 4 1)]}]; [PDict {["x" := PNdarray (zeros 2 1)]}]]
      [[zeros 4 1]; [zeros 4 1]] res.
Proof.
  apply (predict_xshards_extends_shards_with_prediction (sample_env sample_files 4)
           (loaded_estimator 4) [] PNone 4
           [[PDict {["x" := PNdarray (zeros 4 1)]}]; [PDict {["x" := PNdarray (zeros 2 1)]}]]
           [[PNdarray (zeros 4 1)]; [PNdarray (zeros 2 1)]]
           [[zeros 4 1]; [zeros 4 1]]).
  - split; [reflexivity | eexists; reflexivity].
  - repeat constructor.
    + eexists. split; [reflexivity|]. split; [reflexivity|]. exists 4%nat. split; [reflexivity|lia].
    + eexists. split; [reflexivity|]. split; [reflexivity|]. exists 2%nat. split; [reflexivity|lia].
  - reflexivity.
  - repeat constructor.
    + exists 4%nat, 4%nat. split; [reflexivity|]. split; [reflexivity|lia].
    + exists 2%nat, 4%nat. split; [reflexivity|]. split; [reflexivity|lia].
Defined.

(** Claim C5, as stated, fails in the direction from [ValueError] to a
    missing element.  With [batch_size = 0], a description whose first
    dimension reads ["N"] has the element, [int("N")] raises [ValueError],
    and so does the constructor; a description with the element reading
    ["4"], stored under a path without a dot, raises [ValueError] from
    [rindex]. *)
Lemma constructor_raises_ValueError_with_shape_item_present :
  sample_files "dynamic.xml" = Ok (ir_xml (Some "N")) ∧
  find_shape_item (ir_xml (Some "N")) = Some (Element "dim" (Some "N") []) ∧
  py_int (sample_env sample_files 4) (Some "N") = Err ValueError ∧
  from_openvino (sample_env sample_files 4) "dynamic.xml" 0 []
  = (Err ValueError, [ParseXml "dynamic.xml"]) ∧
  sample_files "resnet" = Ok (ir_xml (Some "4")) ∧
  find_shape_item (ir_xml (Some "4")) = Some (Element "dim" (Some "4") []) ∧
  from_openvino (sample_env sample_files 4) "resnet" 0 []
  = (Err ValueError, [ParseXml "resnet"]).
Proof. repeat split; reflexivity. Qed.

(** Claim C5, amended.  With a nonzero [batch_size] argument the attribute
    [batch_size] is that argument and no XML file is parsed.  With
    [batch_size = 0] the constructor parses the file at [model_path]; if the
    parser returns a root without the element [./layers/layer/output/port/dim[1]]
    the constructor raises [ValueError] and leaves the attribute as it was; if
    the element is there and [int], whatever it accepts, returns an integer
    for its text, the attribute is that integer; if [int] raises, the
    constructor raises the same and leaves the attribute as it was.
    [from_openvino] returns the object [__init__] worked on. *)
Theorem constructor_batch_size
    (E : externals) (model_path : string) (batch_size_arg : Z) (w : world) :
  (batch_size_arg ≠ 0 →
     batch_size (self (__init__ E model_path batch_size_arg w).2) = Some batch_size_arg ∧
     ∃ evs, log (__init__ E model_path batch_size_arg w).2 = log w ++ evs ∧
            ∀ file, ParseXml file ∉ evs) ∧
  (∃ evs, log (__init__ E model_path 0 w).2 = log w ++ ParseXml model_path :: evs) ∧
  (∀ root, ET_parse E model_path = Ok root →
     match find_shape_item root with
     | None =>
         (__init__ E model_path 0 w).1 = Err ValueError ∧
         batch_size (self (__init__ E model_path 0 w).2) = batch_size (self w)
     | Some shape_item =>
         match py_int E (text_of shape_item) with
         | Ok v => batch_size (self (__init__ E model_path 0 w).2) = Some v
         | Err e =>
             (__init__ E model_path 0 w).1 = Err e ∧
             batch_size (self (__init__ E model_path 0 w).2) = batch_size (self w)
         end
     end) ∧
  (∀ logs this,
     (from_openvino E model_path batch_size_arg logs).1 = Ok this →
     this = self (__init__ E model_path batch_size_arg
                    {| self := blank_estimator; log := logs |}).2).
Proof.
  split; [|split; [|split]].
  - intros Hbs. split; [by apply init_batch_size_given|].
    destruct (init_outcome E model_path batch_size_arg w) as (evs & Hlog & _ & _ & Hparse & _).
    exists evs. split; [done | by apply Hparse].
  - apply init_parses_default.
  - intros root Hroot. by apply init_batch_size_default.
  - intros logs this. unfold from_openvino. simpl.
    destruct (__init__ E model_path batch_size_arg _) as [[[]|e] w']; simpl; [|done].
    by intros [= <-].
Qed.

(** A batch size of eight given to the constructor; no batch size given,
    on a description whose first dimension reads 4, and on a description
    without layers. *)
Lemma constructor_batch_size_witness :
  batch_size (self (__init__ (sample_env sample_files 4) "resnet.xml" 8
                      {| self := blank_estimator; log := [] |}).2) = Some 8 ∧
  batch_size (self (__init__ (sample_env sample_files 4) "resnet.xml" 0
                      {| self := blank_estimator; log := [] |}).2) = Some 4 ∧
  (__init__ (sample_env sample_files 4) "empty.xml" 0
     {| self := blank_estimator; log := [] |}).1 = Err ValueError.
Proof.
  split; [|split].
  - destruct (constructor_batch_size (sample_env sample_files 4) "resnet.xml" 8
                {| self := blank_estimator; log := [] |}) as [Hgiven _].
    apply Hgiven. lia.
  - destruct (constructor_batch_size (sample_env sample_files 4) "resnet.xml" 0
                {| self := blank_estimator; log := [] |}) as (_ & _ & Hdefault & _).
    exact (Hdefault (ir_xml (Some "4")) eq_refl).
  - destruct (constructor_batch_size (sample_env sample_files 4) "empty.xml" 0
                {| self := blank_estimator; log := [] |}) as (_ & _ & Hdefault & _).
    exact (proj1 (Hdefault empty_xml eq_refl)).
Defined.

(** Claim C6.  [fit], [evaluate], [get_model], [save], [set_tensorboard],
    [clear_gradient_clipping], [set_constant_gradient_clipping],
    [set_l2_norm_gradient_clipping], [get_train_summary],
    [get_validation_summary] and [load_orca_checkpoint] raise
    [NotImplementedError] on every argument and leave the estimator and the
    log as they were. *)
Theorem unsupported_methods_raise_NotImplementedError
    (w : world) (data validation_data : pyobj) (a1 a2 a3 a4 a5 : pyval) :
  fit data a1 a2 a3 a4 validation_data a5 w = (Err NotImplementedError, w) ∧
  evaluate data a1 a2 a3 w = (Err NotImplementedError, w) ∧
  get_model w = (Err NotImplementedError, w) ∧
  save a1 w = (Err NotImplementedError, w) ∧
  set_tensorboard a1 a2 w = (Err NotImplementedError, w) ∧
  clear_gradient_clipping w = (Err NotImplementedError, w) ∧
  set_constant_gradient_clipping a1 a2 w = (Err NotImplementedError, w) ∧
  set_l2_norm_gradient_clipping a1 w = (Err NotImplementedError, w) ∧
  get_train_summary a1 w = (Err NotImplementedError, w) ∧
  get_validation_summary a1 w = (Err NotImplementedError, w) ∧
  load_orca_checkpoint a1 a2 w = (Err NotImplementedError, w).
Proof. repeat split. Qed.

(** Claim C7.  On data that is neither a DataFrame, nor a [SparkXShards],
    nor an array, nor a list, [predict] raises [ValueError] and changes
    nothing; on each of these four kinds it runs the branch of that kind. *)
Theorem predict_rejects_other_inputs
    (E : externals) (data : pyobj) (feature_cols : pyval) (w : world) :
  (∀ df, data ≠ DataFrame df) →
  (∀ shards, data ≠ SparkXShards shards) →
  (∀ a, data ≠ Value (PNdarray a)) →
  (∀ l, data ≠ Value (PList l)) →
  predict E data feature_cols w = (Err ValueError, w) ∧
  (∀ df, predict E (DataFrame df) feature_cols w = predict_dataframe E df feature_cols w) ∧
  (∀ shards, predict E (SparkXShards shards) feature_cols w = predict_xshards E shards w) ∧
  (∀ a, predict E (Value (PNdarray a)) feature_cols w = predict_ndarray E a w) ∧
  (∀ l, predict E (Value (PList l)) feature_cols w = predict_list E (PList l) w).
Proof.
  intros Hdf Hxs Harr Hlist. split; [|done].
  destruct data as [df|shards|v]; [by destruct (Hdf df) | by destruct (Hxs shards) |].
  destruct v as [| | |a|l|]; try done; [by destruct (Harr a) | by destruct (Hlist l)].
Qed.

(** A string as input. *)
Lemma predict_rejects_other_inputs_witness :
  predict (sample_env sample_files 4) (Value (PStr "images")) PNone (loaded_world 4)
  = (Err ValueError, loaded_world 4).
Proof.
  apply (predict_rejects_other_inputs (sample_env sample_files 4) (Value (PStr "images"))
           PNone (loaded_world 4)); discriminate.
Defined.

(** Claim C8, on the first flattened element.  A list whose first element
    is an integer makes [predict] raise [TypeError], from
    [len(flattened[0])], and one whose first element is a string makes it
    raise [AttributeError], from [flattened[0].shape]: both before the loop
    that holds the assertions.  Nothing is sent to the engine. *)
Lemma predict_list_first_element_checked_late :
  predict (sample_env sample_files 3) (Value (PList [PInt 5; PNdarray (zeros 2 2)])) PNone
    (loaded_world 3)
  = (Err TypeError, loaded_world 3) ∧
  predict (sample_env sample_files 3) (Value (PList [PStr "ab"; PNdarray (zeros 2 2)])) PNone
    (loaded_world 3)
  = (Err AttributeError, loaded_world 3).
Proof. split; reflexivity. Qed.

(** Claim C9.  When [model_path] has a dot, [__init__] and [load] call the
    engine's loader with [model_path] and, as weight path, [model_path] with
    everything from its last dot on replaced by [".bin"]: with a nonzero
    [batch_size] this call is all they add to the log and its outcome is
    theirs, and with [batch_size = 0] the same holds once the description has
    been parsed and the batch size read.  No other call to the loader is ever
    made.  When [model_path] has no dot the call fails and the loader is not
    called; with a nonzero [batch_size] the failure is the [ValueError] of
    [rindex]. *)
Theorem weight_path_replaces_extension
    (E : externals) (model_path : string) (batch_size_arg : Z) (w : world) :
  (has_char "." model_path →
     ∃ wp, replaced_extension model_path wp ∧
       (batch_size_arg ≠ 0 →
          (__init__ E model_path batch_size_arg w).1
          = engine_load E load_openvino_ng model_path wp batch_size_arg ∧
          log (__init__ E model_path batch_size_arg w).2
          = log w ++ [LoadModel load_openvino_ng model_path wp batch_size_arg] ∧
          (load E model_path batch_size_arg w).1
          = engine_load E load_openvino model_path wp batch_size_arg ∧
          log (load E model_path batch_size_arg w).2
          = log w ++ [LoadModel load_openvino model_path wp batch_size_arg]) ∧
       (∀ root item v,
          ET_parse E model_path = Ok root → find_shape_item root = Some item →
          py_int E (text_of item) = Ok v →
          (__init__ E model_path 0 w).1
          = engine_load E load_openvino_ng model_path wp v ∧
          log (__init__ E model_path 0 w).2
          = log w ++ [ParseXml model_path; LoadModel load_openvino_ng model_path wp v] ∧
          (load E model_path 0 w).1
          = engine_load E load_openvino model_path wp 0 ∧
          log (load E model_path 0 w).2
          = log w ++ [ParseXml model_path; LoadModel load_openvino model_path wp 0])) ∧
  (∃ evs, log (__init__ E model_path batch_size_arg w).2 = log w ++ evs ∧
     (∀ api m wp b, LoadModel api m wp b ∈ evs →
        api = load_openvino_ng ∧ m = model_path ∧ replaced_extension model_path wp) ∧
     ((__init__ E model_path batch_size_arg w).1 = Ok () →
        ∃ wp b, LoadModel load_openvino_ng model_path wp b ∈ evs) ∧
     (¬ has_char "." model_path →
        (∃ e, (__init__ E model_path batch_size_arg w).1 = Err e) ∧
        (∀ api m wp b, LoadModel api m wp b ∉ evs) ∧
        (batch_size_arg ≠ 0 → (__init__ E model_path batch_size_arg w).1 = Err ValueError))) ∧
  (∃ evs, log (load E model_path batch_size_arg w).2 = log w ++ evs ∧
     (∀ api m wp b, LoadModel api m wp b ∈ evs →
        api = load_openvino ∧ m = model_path ∧ replaced_extension model_path wp) ∧
     ((load E model_path batch_size_arg w).1 = Ok () →
        ∃ wp b, LoadModel load_openvino model_path wp b ∈ evs) ∧
     (¬ has_char "." model_path →
        (∃ e, (load E model_path batch_size_arg w).1 = Err e) ∧
        (∀ api m wp b, LoadModel api m wp b ∉ evs) ∧
        (batch_size_arg ≠ 0 → (load E model_path batch_size_arg w).1 = Err ValueError))).
Proof.
  split; [|split].
  - intros Hdot.
    destruct (rindex_opt "." model_path) as [i|] eqn:Hi;
      [|by apply rindex_opt_None in Hi].
    pose proof (rindex_opt_Some _ _ _ Hi) as (pre & suf & Hmp & Hsuf & Htake).
    exists (str_take i model_path +:+ ".bin"). split; [exists pre, suf; by rewrite Htake|].
    split.
    + intros Hbs. unfold __init__, load, rindex. run_M.
      rewrite decide_True by done. simpl. rewrite Hi. simpl.
      split_and!.
      * by destruct (engine_load E load_openvino_ng _ _ _) as [[]|].
      * by destruct (engine_load E load_openvino_ng _ _ _) as [[]|].
      * by destruct (engine_load E load_openvino _ _ _) as [[]|].
      * by destruct (engine_load E load_openvino _ _ _) as [[]|].
    + intros root item v Hroot Hitem Hint. unfold __init__, load, rindex. run_M.
      rewrite Hroot. simpl. rewrite Hitem. simpl. rewrite Hint. simpl. rewrite Hi. simpl.
      split_and!.
      * by destruct (engine_load E load_openvino_ng _ _ _) as [[]|].
      * destruct (engine_load E load_openvino_ng _ _ _) as [[]|]; simpl;
          by rewrite <- app_assoc.
      * by destruct (engine_load E load_openvino _ _ _) as [[]|].
      * destruct (engine_load E load_openvino _ _ _) as [[]|]; simpl;
          by rewrite <- app_assoc.
  - destruct (init_outcome E model_path batch_size_arg w)
      as (evs & Hlog & Hload & Hok & _ & Hdot).
    exists evs. split; [done|]. split; [|split; [done|done]].
    intros api m wp b Hin. by destruct (Hload api m wp b Hin) as (? & ? & ? & _).
  - destruct (load_outcome E model_path batch_size_arg w)
      as (evs & Hlog & Hload & Hok & _ & Hdot).
    exists evs. split; [done|]. split; [|split; [|done]].
    + intros api m wp b Hin. by destruct (Hload api m wp b Hin) as (? & ? & ? & _).
    + intros Hrun. destruct (Hok Hrun) as [wp Hwp]. eauto.
Qed.

(** The constructor on ["resnet.xml"] with a batch size of eight, and with
    none; on a model path without a dot. *)
Lemma weight_path_replaces_extension_witness :
  replaced_extension "resnet.xml" "resnet.bin" ∧
  __init__ (sample_env sample_files 4) "resnet.xml" 8 {| self := blank_estimator; log := [] |}
  = (Ok (),
     {| self := loaded_estimator 8;
        log := [LoadModel load_openvino_ng "resnet.xml" "resnet.bin" 8] |}) ∧
  log (__init__ (sample_env sample_files 4) "resnet.xml" 8
         {| self := blank_estimator; log := [] |}).2
  = [] ++ [LoadModel load_openvino_ng "resnet.xml" "resnet.bin" 8] ∧
  log (__init__ (sample_env sample_files 4) "resnet.xml" 0
         {| self := blank_estimator; log := [] |}).2
  = [] ++ [ParseXml "resnet.xml"; LoadModel load_openvino_ng "resnet.xml" "resnet.bin" 4] ∧
  (__init__ (sample_env sample_files 4) "resnet" 8
     {| self := blank_estimator; log := [] |}).1 = Err ValueError.
Proof.
  destruct (weight_path_replaces_extension (sample_env sample_files 4) "resnet.xml" 8
              {| self := blank_estimator; log := [] |}) as [Hdot _].
  destruct Hdot as (wp & Hrep & Hgiven & Hdefault).
  { unfold has_char. simpl. do 6 right. left. }
  destruct (Hgiven ltac:(lia)) as (_ & Hlog & _).
  destruct (Hdefault (ir_xml (Some "4")) (Element "dim" (Some "4") []) 4
              eq_refl eq_refl eq_refl) as (_ & Hlog0 & _).
  assert (wp = "resnet.bin") as Hwp.
  { assert (Hev : [LoadModel load_openvino_ng "resnet.xml" "resnet.bin" 8]
                  = [LoadModel load_openvino_ng "resnet.xml" wp 8]) by exact Hlog.
    by injection Hev as <-. }
  rewrite Hwp in Hrep, Hlog, Hlog0.
  split; [exact Hrep|]. split; [reflexivity|]. split; [exact Hlog|]. split; [exact Hlog0|].
  destruct (weight_path_replaces_extension (sample_env sample_files 4) "resnet" 8
              {| self := blank_estimator; log := [] |}) as (_ & (evs & _ & _ & _ & Hnodot) & _).
  apply Hnodot.
  - unfold has_char. simpl. intros Hin.
    repeat (apply elem_of_cons in Hin as [Hin|Hin]; [discriminate Hin|]).
    by apply elem_of_nil in Hin.
  - lia.
Defined.

(** Claim C10, on [load].  On an estimator of batch size four, [load] with
    [batch_size = 0] reads the batch size 4 from the description and assigns
    it to the attribute, and calls the engine's loader with the argument, 0. *)
Lemma load_forwards_argument_instead_of_attribute :
  load (sample_env sample_files 4) "resnet.xml" 0 (loaded_world 4)
  = (Ok (),
     {| self :=
          {| node_num := Some 1%nat; core_num := Some 4%nat; path := Some "resnet.xml";
             batch_size := Some 4;
             model := Some {| supported_concurrent_num := 4;
                              loaded := Some (load_openvino, "resnet.xml", "resnet.bin", 0) |} |};
        log := [ParseXml "resnet.xml"; LoadModel load_openvino "resnet.xml" "resnet.bin" 0] |}).
Proof. reflexivity. Qed.

(** ** Further properties of [predict], the constructor and [load] *)

(** [predict] never assigns an attribute of the estimator, whatever the input
    and however it ends, and it calls the engine at most once: the log grows
    by nothing or by one [DistributedPredict]. *)
Theorem predict_leaves_estimator (E : externals) (data : pyobj) (fc : pyval) (w : world) :
  self (predict E data fc w).2 = self w ∧
  (log (predict E data fc w).2 = log w ∨
   ∃ inputs, log (predict E data fc w).2 = log w ++ [DistributedPredict inputs]).
Proof.
  destruct data as [df|shards|v].
  - unfold predict, predict_dataframe. run_M.
    repeat (case_match; simplify_eq/=; eauto).
  - unfold predict, predict_xshards. run_M.
    repeat (case_match; simplify_eq/=; eauto).
  - destruct v as [| | |a|l|]; simpl; eauto.
    + unfold predict_ndarray. run_M. repeat (case_match; simplify_eq/=; eauto).
    + unfold predict_list. run_M. repeat (case_match; simplify_eq/=; eauto).
Qed.

(** An array without rows, or a negative batch size, gives [split_num <= 0],
    which [array_split] refuses. *)
Lemma predict_ndarray_no_rows_or_negative_batch E this logs fc data n b :
  batch_size this = Some b → b ≠ 0 → ndarray_len data = Ok n →
  n = 0%nat ∨ (b < 0 ∧ Z.of_nat n ≤ sys_maxsize) →
  predict E (Value (PNdarray data)) fc {| self := this; log := logs |}
  = (Err ValueError, {| self := this; log := logs |}).
Proof.
  intros Hb Hb0 Hlen Hcase.
  assert (∃ k, ceil_div n b = Ok k ∧ k ≤ 0) as (k & Hk & Hk0).
  { destruct Hcase as [->|[Hneg Hn]].
    - exists 0. split; [by apply ceil_div_no_rows | done].
    - apply ceil_div_negative; [done | by apply sys_maxsize_small]. }
  assert (split_ndarray this data = Err ValueError) as Hsplit.
  { unfold split_ndarray. rewrite Hlen, Hb. simpl. rewrite Hk. simpl.
    apply ndarray_len_shape in Hlen as (tail & Hs).
    unfold array_split, shape0. rewrite Hs. simpl.
    by rewrite decide_True. }
  simpl. unfold predict_ndarray. run_M. by rewrite Hsplit.
Qed.

(** The parts [array_split] returns, entry by entry. *)
Lemma array_split_explicit a n tail k :
  shape a = n :: tail → 0 < k →
  array_split a k
  = Ok ((λ i, {| shape := section_size n (Z.to_nat k) i :: tail;
                 data := take (section_size n (Z.to_nat k) i * stride tail)
                           (drop (sum_list (take i (section_size n (Z.to_nat k)
                                                       <$> seq 0 (Z.to_nat k)))
                                  * stride tail) (data a)) |})
          <$> seq 0 (Z.to_nat k)).
Proof.
  intros Hs Hk. unfold array_split, shape0. rewrite Hs. simpl.
  case_decide; [lia|].
  set (K := Z.to_nat k). assert (0 < K)%nat as HK by lia.
  set (sizes := (replicate (n `mod` K) (n `div` K + 1) ++ replicate (K - n `mod` K) (n `div` K))%nat).
  assert (Hsizes : sizes = section_size n K <$> seq 0 K).
  { apply list_eq. intros i. rewrite list_lookup_fmap.
    destruct (decide (i < K)%nat) as [Hi|Hi].
    - rewrite lookup_seq_lt by done. simpl. by apply sizes_lookup.
    - rewrite lookup_seq_ge by lia. simpl. apply lookup_ge_None.
      unfold sizes. rewrite length_app, !length_replicate.
      pose proof (Nat.mod_upper_bound n K ltac:(lia)). lia. }
  assert (Hlen : length sizes = K) by (by rewrite Hsizes, length_fmap, length_seq).
  rewrite <- Hsizes.
  apply map_result_total. intros i Hi. apply elem_of_seq in Hi.
  unfold cumsum. simpl.
  assert (Hst : (0%nat :: cumsum_from 0 sizes) !! i = Some (sum_list (take i sizes))).
  { destruct i as [|i]; [done|]. simpl. rewrite cumsum_from_lookup by lia. done. }
  rewrite Hst. replace (i + 1)%nat with (S i) by lia. simpl.
  rewrite cumsum_from_lookup by lia. simpl.
  unfold slice. rewrite Hs.
  pose proof (sum_list_take_le sizes (S i)) as Hle.
  unfold sizes in Hle at 2. rewrite sizes_sum in Hle by done.
  assert (Hstep : sum_list (take (S i) sizes) = (sum_list (take i sizes) + section_size n K i)%nat).
  { rewrite (take_S_r _ _ (section_size n K i)) by (apply sizes_lookup; lia).
    rewrite sum_list_with_app. simpl. lia. }
  rewrite Hstep in *.
  rewrite !Nat.min_l by lia.
  replace (sum_list (take i sizes) + section_size n K i - sum_list (take i sizes))%nat
    with (section_size n K i) by lia.
  done.
Qed.

Lemma split_ndarray_explicit this data n tail b k arrays lens :
  batch_size this = Some b → shape data = n :: tail →
  split_ndarray this data = Ok (k, arrays, lens) →
  ceil_div n b = Ok k ∧ 0 < k ∧
  array_split data k = Ok arrays ∧
  lens = section_size n (Z.to_nat k) <$> seq 0 (Z.to_nat k).
Proof.
  intros Hb Hs. unfold split_ndarray, ndarray_len. rewrite Hs, Hb. simpl.
  destruct (ceil_div n b) as [k'|] eqn:Hk; simpl; [|done].
  destruct (array_split data k') as [parts0|] eqn:Hsplit0; simpl; [|done].
  pose proof (array_split_sections data k' parts0 Hsplit0) as Hk'.
  rewrite (array_split_explicit data n tail k' Hs Hk') in Hsplit0. injection Hsplit0 as <-.
  set (parts := _ <$> seq 0 (Z.to_nat k')).
  rewrite (map_result_total ndarray_len (λ p, hd 0%nat (shape p))).
  2:{ intros p Hp. apply list_elem_of_fmap in Hp as (i & -> & _). reflexivity. }
  simpl. intros [= <- <- <-]. split_and!; [done|done|by apply array_split_explicit|].
  unfold parts. rewrite <- list_fmap_compose. done.
Qed.

Lemma concat_sections {A} (f : nat → nat) (st : nat) (l : list A) (K : nat) :
  concat ((λ i, take (f i * st) (drop (sum_list (take i (f <$> seq 0 K)) * st) l))
            <$> seq 0 K)
  = take (sum_list (f <$> seq 0 K) * st) l.
Proof.
  assert (Hgen : ∀ K' K, (K' ≤ K)%nat →
    concat ((λ i, take (f i * st) (drop (sum_list (take i (f <$> seq 0 K)) * st) l))
              <$> seq 0 K')
    = take (sum_list (f <$> seq 0 K') * st) l).
  { clear K. induction K' as [|K' IH]; intros K HK; [done|].
    rewrite seq_S, !fmap_app, concat_app, sum_list_with_app. simpl.
    rewrite IH by lia. rewrite app_nil_r.
    assert (take K' (f <$> seq 0 K) = f <$> seq 0 K') as ->.
    { rewrite <- fmap_take. f_equal. rewrite take_seq. f_equal. lia. }
    rewrite take_take_drop. f_equal. lia. }
  by apply Hgen.
Qed.

Lemma trim_results_Forall3 outs : ∀ pre lens trimmed,
  Forall3 (λ y m t, slice y 0 m = Ok t) outs lens trimmed →
  map_result (λ p : nat * ndarray,
      match (pre ++ lens) !! p.1 with
      | Some k => slice p.2 0 k
      | None => Err IndexError
      end) (zip (seq (length pre) (length outs)) outs) = Ok trimmed.
Proof.
  induction outs as [|y outs IH]; intros pre lens trimmed Hall.
  - by inversion Hall.
  - inversion Hall as [|? m t ? lens' trimmed' Hy Hall']; subst. simpl.
    rewrite lookup_app_r by lia. rewrite Nat.sub_diag. simpl. rewrite Hy. simpl.
    specialize (IH (pre ++ [m]) lens' trimmed' Hall').
    rewrite length_app in IH. simpl in IH.
    replace (length pre + 1)%nat with (S (length pre)) in IH by lia.
    rewrite <- app_assoc in IH. simpl in IH. by rewrite IH.
Qed.

(** The chunks of the array branch: their recorded lengths are their
    lengths and add up to the number of rows, and the chunks come in
    non-increasing length with a difference of at most one row; when the batch
    size and the number of rows are below [2^53], no chunk is empty. *)
Theorem chunks_nonempty_and_balanced this data n b k arrays lens :
  ready this b → 1 ≤ b → (1 ≤ n)%nat → ndarray_len data = Ok n →
  split_ndarray this data = Ok (k, arrays, lens) →
  sum_list lens = n ∧
  Forall2 (λ c m, ndarray_len c = Ok m) arrays lens ∧
  (b < 2 ^ 53 → Z.of_nat n < 2 ^ 53 → Forall (λ m, (1 ≤ m)%nat) lens) ∧
  ∀ i j mi mj, lens !! i = Some mi → lens !! j = Some mj → (i ≤ j)%nat →
    (mj ≤ mi ≤ mj + 1)%nat.
Proof.
  intros [Hb _] Hb1 Hn Hlen Hsplit.
  destruct (split_ndarray_lens this data n b k arrays lens Hb Hlen Hsplit)
    as (_ & _ & _ & Hlens).
  apply ndarray_len_shape in Hlen as (tail & Hs).
  destruct (split_ndarray_explicit this data n tail b k arrays lens Hb Hs Hsplit)
    as (Hceil & Hk & Harr & ->).
  set (K := Z.to_nat k) in *.
  split; [apply section_size_sum; lia|]. split; [done|]. split.
  - intros Hb53 Hn53.
    destruct (ceil_div_exact n b Hn Hn53 ltac:(lia)) as (k' & Hk' & Hbounds).
    assert (k' = k) as -> by congruence.
    assert (Hq : (1 ≤ n / K)%nat) by (apply Nat.div_le_lower_bound; nia).
    apply Forall_fmap, Forall_forall. intros i _. simpl.
    unfold section_size. lia.
  - intros i j mi mj Hi Hj Hij.
    rewrite list_lookup_fmap in Hi, Hj.
    destruct (seq 0 K !! i) as [i'|] eqn:Hi'; [|done].
    destruct (seq 0 K !! j) as [j'|] eqn:Hj'; [|done].
    apply lookup_seq in Hi' as [-> _]. apply lookup_seq in Hj' as [-> _].
    simpl in Hi, Hj. injection Hi as <-. injection Hj as <-.
    unfold section_size. repeat case_decide; lia.
Qed.

(** Splitting and reassembling lose nothing: with an engine that answers
    every chunk with the chunk itself, [predict] returns the input array, for
    an array whose entries fill its shape. *)
Theorem predict_ndarray_echo E this logs fc arr n tail b k arrays lens outs :
  ready this b → 1 ≤ b → (1 ≤ n)%nat →
  shape arr = n :: tail → length (data arr) = (n * stride tail)%nat →
  split_ndarray this arr = Ok (k, arrays, lens) →
  engine_distributed_predict E (sc_parallelize E (PNdarray <$> arrays) k) = Ok outs →
  collect outs = arrays →
  (predict E (Value (PNdarray arr)) fc {| self := this; log := logs |}).1
  = Ok (Value (PNdarray arr)).
Proof.
  intros [Hb [mo Hmo]] Hb1 Hn Hs Hwf Hsplit Hengine Hecho.
  destruct (split_ndarray_explicit this arr n tail b k arrays lens Hb Hs Hsplit)
    as (Hceil & Hk & Harr & ->).
  rewrite (array_split_explicit arr n tail k Hs Hk) in Harr. injection Harr as Harr.
  set (K := Z.to_nat k) in *.
  assert (Htrim : trim_results arrays (Some (section_size n K <$> seq 0 K)) = Ok arrays).
  { unfold trim_results, enumerate.
    pose proof (trim_results_Forall3 arrays [] (section_size n K <$> seq 0 K) arrays) as Hgo.
    simpl in Hgo. apply Hgo. clear Hgo.
    rewrite <- Harr.
    assert (Hgen : ∀ (g : nat → ndarray) (f : nat → nat) (idx : list nat),
      (∀ i, slice (g i) 0 (f i) = Ok (g i)) →
      Forall3 (λ y m t, slice y 0 m = Ok t) (g <$> idx) (f <$> idx) (g <$> idx)).
    { intros g f idx Hg. induction idx as [|i idx IH]; simpl; constructor; auto. }
    apply Hgen. intros i.
    unfold slice. simpl. rewrite Nat.min_id, Nat.sub_0_r.
    by rewrite drop_0, take_idemp. }
  assert (Hcat : concatenate arrays = Ok arr).
  { destruct (concatenate_ok arrays (section_size n K <$> seq 0 K) tail) as (r & Hr & Hshape).
    - intros Hnil. rewrite <- Harr in Hnil. apply (f_equal length) in Hnil.
      rewrite length_fmap, length_seq in Hnil. simpl in Hnil. lia.
    - rewrite <- Harr. apply Forall2_fmap. apply Forall_Forall2_diag.
      by apply Forall_forall.
    - rewrite Hr. f_equal.
      assert (data r = concat (data <$> arrays)) as Hdata.
      { revert Hr. unfold concatenate. destruct arrays as [|a0 ?]; [done|].
        destruct (shape a0); [done|]. destruct (map_result _ _); [|done].
        by intros [= <-]. }
      destruct r as [sh dt], arr as [sh' dt']. simpl in *. subst sh'.
      rewrite Hshape, section_size_sum by lia. f_equal.
      rewrite Hdata, <- Harr, <- list_fmap_compose. unfold compose. simpl.
      rewrite (concat_sections (section_size n K) (stride tail) dt' K).
      rewrite section_size_sum by lia. apply take_ge. lia. }
  simpl. unfold predict_ndarray. run_M. rewrite Hsplit. simpl. rewrite Hmo. simpl.
  rewrite Hengine. simpl. unfold reassemble. rewrite Hecho, Htrim. simpl. by rewrite Hcat.
Qed.

Lemma for_each_Ok {A} (body : A → result unit) l :
  for_each body l = Ok () ↔ Forall (λ x, body x = Ok ()) l.
Proof.
  induction l as [|x l IH]; simpl.
  - split; [constructor | done].
  - rewrite Forall_cons, <- IH. destruct (body x) as [[]|e]; simpl; [tauto|].
    split; [done | by intros [? _]].
Qed.

Lemma for_each_Err {A} (body : A → result unit) l e :
  for_each body l = Err e → ∃ x, x ∈ l ∧ body x = Err e.
Proof.
  induction l as [|x l IH]; simpl; [done|].
  destruct (body x) as [[]|e'] eqn:Hx; simpl.
  - intros H. destruct (IH H) as (y & Hy & He). exists y. split; [by right|done].
  - intros [= ->]. exists x. split; [left|done].
Qed.

(** [predict_transform] returns exactly on the dictionaries holding under
    ["x"] an array, or a list of arrays, of at most [b] rows each, and
    returns that feature; otherwise it raises [AssertionError], [ValueError]
    (a feature of another kind) or [IndexError] (a zero-dimensional array). *)
Theorem predict_transform_accepts_iff (shard : pyval) (b : Z) :
  (∀ v, predict_transform shard b = Ok v ↔ shard_with_feature b shard v) ∧
  (∀ e, predict_transform shard b = Err e →
     e = AssertionError ∨ e = ValueError ∨ e = IndexError).
Proof.
  split.
  - intros v. split.
    + unfold predict_transform. destruct shard as [| | | | |d]; try done.
      destruct (d !! "x") as [feature|] eqn:Hx; [|done].
      destruct feature as [| | |a|l|]; try done.
      * destruct (shape0 a) as [n|] eqn:Hs; simpl; [|done].
        case_bool_decide; simpl; [|done]. intros [= <-].
        exists d. split; [done|]. split; [done|]. simpl. eauto.
      * destruct (for_each _ l) as [[]|] eqn:Hl; simpl; [|done]. intros [= <-].
        exists d. split; [done|]. split; [done|]. simpl.
        apply for_each_Ok in Hl. eapply Forall_impl; [exact Hl|]. intros elem Helem.
        destruct elem as [| | |a| |]; try done.
        destruct (shape0 a) as [n|] eqn:Hs; simpl in Helem; [|done].
        case_bool_decide; [|done]. eauto.
    + intros (d & -> & Hx & Hw). by apply predict_transform_accepts.
  - intros e. unfold predict_transform. destruct shard as [| | | | |d]; try (intros [= <-]; auto).
    destruct (d !! "x") as [feature|]; [|intros [= <-]; auto].
    destruct feature as [| | |a|l|]; try (intros [= <-]; auto).
    + unfold shape0, py_assert. destruct (shape a); simpl; [intros [= <-]; auto|].
      case_bool_decide; simpl; [done | intros [= <-]; auto].
    + destruct (for_each _ l) as [[]|e'] eqn:Hl; simpl; [done|]. intros [= <-].
      apply for_each_Err in Hl as (elem & _ & Helem).
      destruct elem as [| | |a| |]; try (injection Helem as <-; auto).
      unfold shape0, py_assert in Helem.
      destruct (shape a); simpl in Helem; [injection Helem as <-; auto|].
      case_bool_decide; simpl in Helem; [done | injection Helem as <-; auto].
Qed.

Lemma transform_rejects b (shards : rdd pyval) p s :
  p ∈ shards → s ∈ p → (¬ ∃ feature, shard_with_feature b s feature) →
  ∃ e, rdd_map (λ shard, predict_transform shard b) shards = Err e.
Proof.
  intros Hp Hs Hno.
  destruct (predict_transform s b) as [v|e] eqn:Hrun.
  { exfalso. apply Hno. exists v. by apply (predict_transform_accepts_iff s b). }
  destruct (map_result_Err (λ shard, predict_transform shard b) p s e Hs Hrun) as [e1 He1].
  exact (map_result_Err (map_result (λ shard, predict_transform shard b)) shards p e1 Hp He1).
Qed.

Lemma transform_accepts b (shards features : rdd pyval) :
  Forall2 (Forall2 (shard_with_feature b)) shards features →
  rdd_map (λ shard, predict_transform shard b) shards = Ok features.
Proof.
  intros Hshards. apply rdd_map_Forall2. eapply Forall2_impl; [exact Hshards|].
  intros p q Hpq. eapply Forall2_impl; [exact Hpq|]. intros shard feature Hsf.
  by apply (predict_transform_accepts_iff shard b).
Qed.

(** On a sharded input: when every shard is accepted by [predict_transform]
    the engine is called on the features, partition by partition, whatever
    happens afterwards; when one shard is not accepted [predict] fails, the
    engine is not called and nothing changes. *)
Theorem predict_xshards_all_or_nothing E this logs fc b (shards : rdd pyval) :
  ready this b →
  (∀ features,
      Forall2 (Forall2 (shard_with_feature b)) shards features →
      log (predict E (SparkXShards shards) fc {| self := this; log := logs |}).2
      = logs ++ [DistributedPredict features]) ∧
  (∀ p s,
      p ∈ shards → s ∈ p → (¬ ∃ feature, shard_with_feature b s feature) →
      ∃ e, predict E (SparkXShards shards) fc {| self := this; log := logs |}
           = (Err e, {| self := this; log := logs |})).
Proof.
  intros [Hb [m Hm]]. split.
  - intros features Hshards. simpl. unfold predict_xshards. run_M.
    rewrite Hb. simpl. rewrite (transform_accepts b shards features Hshards). simpl.
    rewrite Hm. simpl. repeat (case_match; simplify_eq/=; eauto).
  - intros p s Hp Hs Hno. destruct (transform_rejects b shards p s Hp Hs Hno) as [e He].
    exists e. simpl. unfold predict_xshards. run_M. rewrite Hb. simpl. by rewrite He.
Qed.

Lemma rows_length z k tail :
  shape z = k :: tail → ∃ rs, rows z = Ok rs ∧ length rs = k.
Proof.
  intros Hs. unfold rows. rewrite Hs. eexists. split; [done|].
  by rewrite length_fmap, length_seq.
Qed.

Lemma delete_useless_result_rows b shard feature y :
  shard_with_feature b shard feature → output_covers feature y →
  ∃ z k tail, delete_useless_result (shard, y) = Ok z ∧ py_len feature = Ok k ∧
    shape z = k :: tail.
Proof.
  intros (d & -> & Hx & _) (k & m & Hk & Hm & Hkm).
  apply ndarray_len_shape in Hm as (tail & Hs).
  destruct (slice_prefix y m tail k Hs Hkm) as (y' & Hslice & Hs').
  exists y', k, tail. unfold delete_useless_result. simpl. rewrite Hx. simpl.
  rewrite Hk. simpl. by rewrite Hslice.
Qed.

Lemma flatMap_rows_partition (zs : list ndarray) (ks : list nat) :
  Forall2 (λ z k, ∃ tail, shape z = k :: tail) zs ks →
  ∃ rs, (map_result rows zs ≫= λ ys, Ok (concat ys)) = Ok rs ∧ length rs = sum_list ks.
Proof.
  induction 1 as [|z k zs ks (tail & Hs) _ (rs & Hrun & Hlen)]; simpl; [by exists []|].
  destruct (rows_length z k tail Hs) as (r1 & Hr1 & Hl1). rewrite Hr1. simpl.
  apply bind_Ok in Hrun as (ys & Hys & [= <-]). rewrite Hys. simpl.
  eexists. split; [done|]. rewrite length_app. lia.
Qed.

(** The DataFrame branch: when the shards [dataframe_to_xshards] makes of the
    DataFrame hold an array of at most [b] rows each and the engine answers
    every shard with at least as many rows as that array has, [predict] hands
    the converter, for every partition, as many result rows as the arrays of
    the partition have rows together: one per row of input. *)
Theorem predict_dataframe_rows E this logs fc b (df xshards features : rdd pyval)
    (outs : rdd ndarray) :
  ready this b →
  dataframe_to_xshards E df fc = Ok xshards →
  Forall2 (Forall2 (λ shard feature,
      shard_with_feature b shard feature ∧ is_ndarray feature = true)) xshards features →
  engine_distributed_predict E features = Ok outs →
  Forall2 (Forall2 output_covers) features outs →
  ∃ result_rows,
    predict E (DataFrame df) fc {| self := this; log := logs |}
    = (Ok (convert_predict_rdd_to_dataframe E df result_rows),
       {| self := this; log := logs ++ [DistributedPredict features] |}) ∧
    Forall2 (λ partition rs,
        ∃ ks, Forall2 (λ feature k, ∃ a, feature = PNdarray a ∧ ndarray_len a = Ok k)
                partition ks ∧
              length rs = sum_list ks) features result_rows.
Proof.
  intros [Hb [m Hm]] Hdf Hshards Hengine Houts.
  assert (Hshards0 : Forall2 (Forall2 (shard_with_feature b)) xshards features).
  { eapply Forall2_impl; [exact Hshards|]. intros p q Hpq.
    eapply Forall2_impl; [exact Hpq|]. by intros ?? [? _]. }
  assert (Hdel : Forall2 (Forall2 (λ shard y, ∃ z, delete_useless_result (shard, y) = Ok z))
                   xshards outs).
  { clear -Hshards0 Houts. revert outs Houts.
    induction Hshards0 as [|p q shards features Hpq _ IH]; intros outs Houts.
    - inversion Houts. constructor.
    - inversion Houts as [|? o ? outs' Ho Houts']; subst. constructor; [|by apply IH].
      clear -Hpq Ho. revert o Ho. induction Hpq as [|shard feature p q Hsf _ IH]; intros o Ho.
      + inversion Ho. constructor.
      + inversion Ho as [|? y ? o' Hy Ho']; subst. constructor; [|by apply IH].
        destruct (delete_useless_result_rows b shard feature y Hsf Hy) as (z & _ & _ & Hz & _).
        eauto. }
  destruct (rdd_zip_map delete_useless_result xshards outs Hdel)
    as (zipped & res & Hzip & Hmap & Hall).
  assert (Hrows : ∃ result_rows, rdd_flatMap rows res = Ok result_rows ∧
     Forall2 (λ partition rs,
        ∃ ks, Forall2 (λ feature k, ∃ a, feature = PNdarray a ∧ ndarray_len a = Ok k)
                partition ks ∧
              length rs = sum_list ks) features result_rows).
  { clear -Hshards Houts Hall. unfold rdd_flatMap.
    revert features Hshards Houts.
    induction Hall as [|p o rp shards outs res Hpo _ IH]; intros features Hshards Houts.
    - inversion Hshards; subst. exists []. split; [done|constructor].
    - inversion Hshards as [|? q ? features' Hpq Hshards']; subst.
      inversion Houts as [|? ? ? ? Hqo Houts']; subst.
      destruct (IH features' Hshards' Houts') as (rest & Hrest & Hrel).
      assert (∃ ks, Forall2 (λ feature k, ∃ a, feature = PNdarray a ∧ ndarray_len a = Ok k)
                      q ks ∧
                    Forall2 (λ z k, ∃ tail, shape z = k :: tail) rp ks) as (ks & Hks & Hzs).
      { clear -Hpo Hpq Hqo. revert q Hpq Hqo.
        induction Hpo as [|shard y z p o rp Hz _ IH]; intros q Hpq Hqo.
        - inversion Hpq; subst. exists []. split; constructor.
        - inversion Hpq as [|? feature ? q' [Hsf Harr] Hpq']; subst.
          inversion Hqo as [|? ? ? ? Hy Hqo']; subst.
          destruct (IH q' Hpq' Hqo') as (ks & Hks & Hzs).
          destruct (delete_useless_result_rows b shard feature y Hsf Hy)
            as (z' & k & tail & Hz' & Hk & Hs).
          assert (z' = z) as -> by congruence.
          exists (k :: ks). split; constructor; eauto.
          destruct feature as [| | |a| |]; try done. eauto. }
      destruct (flatMap_rows_partition rp ks Hzs) as (rs & Hrs & Hlen).
      simpl. rewrite Hrs. simpl. rewrite Hrest. simpl.
      eexists. split; [done|]. constructor; [|done]. eauto. }
  destruct Hrows as (result_rows & Hflat & Hrel).
  exists result_rows. split; [|done].
  simpl. unfold predict_dataframe. run_M. rewrite Hdf. simpl. rewrite Hb. simpl.
  rewrite (transform_accepts b xshards features Hshards0). simpl.
  rewrite Hm. simpl. rewrite Hengine. simpl. rewrite Hzip. simpl. rewrite Hmap. simpl.
  by rewrite Hflat.
Qed.

(** The estimator [from_openvino] returns: the path has a dot at [i], all
    five attributes are assigned, the batch size is the argument if that is
    nonzero and the integer read from the description otherwise, and the
    engine's loader was called once, with that batch size. *)
Theorem from_openvino_constructed E model_path bs logs this :
  (from_openvino E model_path bs logs).1 = Ok this →
  ∃ i b,
    rindex_opt "." model_path = Some i ∧
    (if decide (bs ≠ 0) then b = bs
     else ∃ root item, ET_parse E model_path = Ok root ∧
                       find_shape_item root = Some item ∧
                       py_int E (text_of item) = Ok b) ∧
    engine_load E load_openvino_ng model_path (str_take i model_path +:+ ".bin") b = Ok () ∧
    this = {| node_num := Some (get_node_and_core_number E).1;
              core_num := Some (get_node_and_core_number E).2;
              path := Some model_path;
              batch_size := Some b;
              model := Some {| supported_concurrent_num := (get_node_and_core_number E).2;
                               loaded := Some (load_openvino_ng, model_path,
                                               str_take i model_path +:+ ".bin", b) |} |} ∧
    ready this b ∧
    (from_openvino E model_path bs logs).2
    = logs ++ (if decide (bs ≠ 0) then [] else [ParseXml model_path])
           ++ [LoadModel load_openvino_ng model_path (str_take i model_path +:+ ".bin") b].
Proof.
  unfold from_openvino, __init__, rindex. run_M.
  destruct (decide (bs ≠ 0)) as [Hbs|Hbs]; simpl.
  - destruct (rindex_opt "." model_path) as [i|]; simpl; [|done].
    destruct (engine_load E _ _ _ _) as [[]|] eqn:Hload; simpl; [|done].
    intros [= <-]. exists i, bs. split_and!; try done; try by eexists.
  - destruct (ET_parse E model_path) as [root|] eqn:Hroot; simpl; [|done].
    destruct (find_shape_item root) as [item|] eqn:Hitem; simpl; [|done].
    destruct (py_int E (text_of item)) as [b|] eqn:Hint; simpl; [|done].
    destruct (rindex_opt "." model_path) as [i|]; simpl; [|done].
    destruct (engine_load E _ _ _ _) as [[]|] eqn:Hload; simpl; [|done].
    intros [= <-]. exists i, b.
    split_and!; try done; eauto; try (by eexists); by rewrite <- app_assoc.
Qed.

(** A [load] that returns has assigned all five attributes, whatever they
    were before; the attribute [batch_size] is the argument if that is
    nonzero and the integer read from the description otherwise, and the
    loader received the argument. *)
Theorem load_success_state E model_path bs w :
  (load E model_path bs w).1 = Ok () →
  ∃ i b,
    rindex_opt "." model_path = Some i ∧
    (if decide (bs ≠ 0) then b = bs
     else ∃ root item, ET_parse E model_path = Ok root ∧
                       find_shape_item root = Some item ∧
                       py_int E (text_of item) = Ok b) ∧
    self (load E model_path bs w).2
    = {| node_num := Some (get_node_and_core_number E).1;
         core_num := Some (get_node_and_core_number E).2;
         path := Some model_path;
         batch_size := Some b;
         model := Some {| supported_concurrent_num := (get_node_and_core_number E).2;
                          loaded := Some (load_openvino, model_path,
                                          str_take i model_path +:+ ".bin", bs) |} |} ∧
    log (load E model_path bs w).2
    = log w ++ (if decide (bs ≠ 0) then [] else [ParseXml model_path])
            ++ [LoadModel load_openvino model_path (str_take i model_path +:+ ".bin") bs].
Proof.
  unfold load, rindex. run_M.
  destruct (decide (bs ≠ 0)) as [Hbs|Hbs]; simpl.
  - destruct (rindex_opt "." model_path) as [i|]; simpl; [|done].
    destruct (engine_load E _ _ _ _) as [[]|] eqn:Hload; simpl; [|done].
    intros _. exists i, bs. done.
  - destruct (ET_parse E model_path) as [root|] eqn:Hroot; simpl; [|done].
    destruct (find_shape_item root) as [item|] eqn:Hitem; simpl; [|done].
    destruct (py_int E (text_of item)) as [b|] eqn:Hint; simpl; [|done].
    destruct (rindex_opt "." model_path) as [i|]; simpl; [|done].
    destruct (engine_load E _ _ _ _) as [[]|] eqn:Hload; simpl; [|done].
    intros _. exists i, b. split_and!; try done; eauto; by rewrite <- app_assoc.
Qed.

(** A [load] that raises has already assigned [path]; the model is either
    the one held before, with the loader not called, or a new model into which
    nothing was loaded. *)
Theorem load_failure_state E model_path bs w e :
  (load E model_path bs w).1 = Err e →
  path (self (load E model_path bs w).2) = Some model_path ∧
  (model (self (load E model_path bs w).2) = model (self w) ∧
   (∀ api m wp b, LoadModel api m wp b ∉ drop (length (log w)) (log (load E model_path bs w).2))
   ∨
   model (self (load E model_path bs w).2)
   = Some {| supported_concurrent_num := (get_node_and_core_number E).2; loaded := None |}).
Proof.
  unfold load, rindex. run_M.
  destruct (decide (bs ≠ 0)) as [Hbs|Hbs]; simpl.
  - destruct (rindex_opt "." model_path) as [i|]; simpl; [|by auto].
    destruct (engine_load E _ _ _ _) as [[]|]; simpl; [done | by auto].
  - assert (Hnone : ∀ api m wp b,
      LoadModel api m wp b ∉ drop (length (log w)) (log w ++ [ParseXml model_path])).
    { intros api m wp b. rewrite drop_app_length. intros Hin.
      apply list_elem_of_singleton in Hin. done. }
    destruct (ET_parse E model_path) as [root|]; simpl; [|by auto].
    destruct (find_shape_item root) as [item|]; simpl; [|by auto].
    destruct (py_int E (text_of item)) as [b|]; simpl; [|by auto].
    destruct (rindex_opt "." model_path) as [i|]; simpl; [|by auto].
    destruct (engine_load E _ _ _ _) as [[]|]; simpl; [done | by auto].
Qed.

(** Inputs of the array branch that are refused before the engine is called:
    a zero-dimensional array ([TypeError] from [len]), a batch size of zero
    ([ZeroDivisionError]), an array without rows or, for a length that [len]
    can return, a negative batch size ([ValueError] from [array_split]). *)
Theorem predict_ndarray_edge_inputs E this logs fc data b :
  batch_size this = Some b →
  (shape data = [] →
     predict E (Value (PNdarray data)) fc {| self := this; log := logs |}
     = (Err TypeError, {| self := this; log := logs |})) ∧
  (∀ n, ndarray_len data = Ok n → b = 0 →
     predict E (Value (PNdarray data)) fc {| self := this; log := logs |}
     = (Err ZeroDivisionError, {| self := this; log := logs |})) ∧
  (∀ n, ndarray_len data = Ok n → b ≠ 0 →
     n = 0%nat ∨ (b < 0 ∧ Z.of_nat n ≤ sys_maxsize) →
     predict E (Value (PNdarray data)) fc {| self := this; log := logs |}
     = (Err ValueError, {| self := this; log := logs |})).
Proof.
  intros Hb. split; [|split].
  - intros Hs. simpl. unfold predict_ndarray, split_ndarray, ndarray_len. run_M.
    by rewrite Hs.
  - intros n Hn ->. simpl. unfold predict_ndarray, split_ndarray. run_M.
    rewrite Hn. simpl. rewrite Hb. done.
  - intros n Hn Hb0 Hcase.
    by apply (predict_ndarray_no_rows_or_negative_batch E this logs fc data n b).
Qed.

Lemma predict_ndarray_edge_inputs_witness :
  predict (sample_env sample_files 4) (Value (PNdarray (zeros 0 3))) PNone
    {| self := loaded_estimator 4; log := [] |}
  = (Err ValueError, {| self := loaded_estimator 4; log := [] |}).
Proof.
  destruct (predict_ndarray_edge_inputs (sample_env sample_files 4) (loaded_estimator 4) []
              PNone (zeros 0 3) 4) as (_ & _ & Hempty).
  - reflexivity.
  - apply (Hempty 0%nat); [reflexivity | lia | left; reflexivity].
Defined.

(** A list that flattens to nothing (the empty list, or lists of empty
    lists) raises [IndexError] at [flattened[0]]. *)
Theorem predict_list_without_leaves E this logs fc l :
  nest_flatten E (PList l) = [] →
  predict E (Value (PList l)) fc {| self := this; log := logs |}
  = (Err IndexError, {| self := this; log := logs |}).
Proof.
  intros Hflat. simpl. unfold predict_list, split_list. run_M. by rewrite Hflat.
Qed.

Lemma predict_list_without_leaves_witness :
  predict (sample_env sample_files 4) (Value (PList [PList []; PList []])) PNone
    {| self := loaded_estimator 4; log := [] |}
  = (Err IndexError, {| self := loaded_estimator 4; log := [] |}).
Proof.
  apply (predict_list_without_leaves (sample_env sample_files 4) (loaded_estimator 4) []
           PNone [PList []; PList []]).
  reflexivity.
Defined.

Lemma chunks_nonempty_and_balanced_witness :
  ∃ k arrays lens,
    split_ndarray (loaded_estimator 4) (zeros 22 2) = Ok (k, arrays, lens) ∧
    sum_list lens = 22%nat ∧
    Forall2 (λ c m, ndarray_len c = Ok m) arrays lens ∧
    Forall (λ m, (1 ≤ m)%nat) lens ∧
    ∀ i j mi mj, lens !! i = Some mi → lens !! j = Some mj → (i ≤ j)%nat →
      (mj ≤ mi ≤ mj + 1)%nat.
Proof.
  eexists _, _, _. split; [vm_compute; reflexivity|].
  edestruct (chunks_nonempty_and_balanced (loaded_estimator 4) (zeros 22 2) 22 4)
    as (Hsum & Hlens & Hne & Hbal).
  - split; [reflexivity | eexists; reflexivity].
  - lia.
  - lia.
  - reflexivity.
  - vm_compute. reflexivity.
  - split; [exact Hsum|]. split; [exact Hlens|]. split; [apply Hne; lia | exact Hbal].
Defined.

Lemma predict_ndarray_echo_witness :
  (predict echo_env (Value (PNdarray counting)) PNone
     {| self := loaded_estimator 2; log := [] |}).1
  = Ok (Value (PNdarray counting)).
Proof.
  eapply (predict_ndarray_echo echo_env (loaded_estimator 2) [] PNone counting 5 [2%nat] 2).
  - split; [reflexivity | eexists; reflexivity].
  - lia.
  - lia.
  - reflexivity.
  - reflexivity.
  - vm_compute. reflexivity.
  - vm_compute. reflexivity.
  - reflexivity.
Defined.

Lemma predict_ndarray_returns_all_rows_witness :
  ∃ r, (predict (sample_env sample_files 4) (Value (PNdarray (zeros 22 2))) PNone
          {| self := loaded_estimator 4; log := [] |}).1
       = Ok (Value (PNdarray r)) ∧
       shape r = [22%nat; 1%nat].
Proof.
  eapply (predict_ndarray_returns_all_rows (sample_env sample_files 4) (loaded_estimator 4) []
            PNone (zeros 22 2) 22 4).
  - split; [reflexivity | eexists; reflexivity].
  - lia.
  - lia.
  - reflexivity.
  - vm_compute. reflexivity.
  - vm_compute. reflexivity.
  - vm_compute.
    repeat (apply List.Forall2_cons;
              [eexists _, _; split; [reflexivity|]; split; [reflexivity|]; lia|]).
    apply List.Forall2_nil.
Defined.

Lemma predict_list_asserts_later_elements_witness :
  predict (sample_env sample_files 3)
    (Value (PList [PNdarray (zeros 2 2); PInt 5; PNdarray (zeros 2 2)])) PNone
    {| self := loaded_estimator 3; log := [] |}
  = (Err AssertionError, {| self := loaded_estimator 3; log := [] |}).
Proof.
  apply (predict_list_asserts_later_elements (sample_env sample_files 3) (loaded_estimator 3) []
           PNone [PNdarray (zeros 2 2); PInt 5; PNdarray (zeros 2 2)]
           [zeros 2 2] (PInt 5) [PNdarray (zeros 2 2)] 2 3).
  - split; [reflexivity | eexists; reflexivity].
  - lia.
  - lia.
  - lia.
  - reflexivity.
  - discriminate.
  - repeat constructor.
  - repeat constructor.
  - left. reflexivity.
Defined.

Lemma predict_xshards_all_or_nothing_witness :
  log (predict (sample_env sample_files 4)
         (SparkXShards [[PDict {["x" := PNdarray (zeros 4 1)]}];
                        [PDict {["x" := PNdarray (zeros 2 1)]}]]) PNone
         {| self := loaded_estimator 4; log := [] |}).2
  = [] ++ [DistributedPredict [[PNdarray (zeros 4 1)]; [PNdarray (zeros 2 1)]]].
Proof.
  destruct (predict_xshards_all_or_nothing (sample_env sample_files 4) (loaded_estimator 4) []
              PNone 4 [[PDict {["x" := PNdarray (zeros 4 1)]}];
                       [PDict {["x" := PNdarray (zeros 2 1)]}]]) as [Hcall _].
  - split; [reflexivity | eexists; reflexivity].
  - apply Hcall. repeat constructor.
    + eexists. split; [reflexivity|]. split; [reflexivity|]. exists 4%nat. split; [reflexivity|lia].
    + eexists. split; [reflexivity|]. split; [reflexivity|]. exists 2%nat. split; [reflexivity|lia].
Defined.

(** The DataFrame branch fails, without calling the engine, when one of the
    shards made of the DataFrame is not accepted by [predict_transform]: for
    instance a partition with more rows than the batch size. *)
Theorem predict_dataframe_rejects E this logs fc b (df xshards : rdd pyval) p s :
  ready this b →
  dataframe_to_xshards E df fc = Ok xshards →
  p ∈ xshards → s ∈ p → (¬ ∃ feature, shard_with_feature b s feature) →
  ∃ e, predict E (DataFrame df) fc {| self := this; log := logs |}
       = (Err e, {| self := this; log := logs |}).
Proof.
  intros [Hb _] Hdf Hp Hs Hno.
  destruct (transform_rejects b xshards p s Hp Hs Hno) as [e He].
  exists e. simpl. unfold predict_dataframe. run_M. rewrite Hdf. simpl. rewrite Hb. simpl.
  by rewrite He.
Qed.

Lemma predict_dataframe_rejects_witness :
  ∃ e, predict (sample_env sample_files 4)
         (DataFrame [[PDict {["x" := PNdarray (zeros 6 1)]}]]) PNone
         {| self := loaded_estimator 4; log := [] |}
       = (Err e, {| self := loaded_estimator 4; log := [] |}).
Proof.
  apply (predict_dataframe_rejects (sample_env sample_files 4) (loaded_estimator 4) [] PNone 4
           [[PDict {["x" := PNdarray (zeros 6 1)]}]] [[PDict {["x" := PNdarray (zeros 6 1)]}]]
           [PDict {["x" := PNdarray (zeros 6 1)]}] (PDict {["x" := PNdarray (zeros 6 1)]})).
  - split; [reflexivity | eexists; reflexivity].
  - reflexivity.
  - left.
  - left.
  - intros (feature & d & Hd & Hx & Hw). injection Hd as <-.
    rewrite lookup_singleton_eq in Hx. injection Hx as <-.
    destruct Hw as (n & Hn & Hle). injection Hn as <-. lia.
Defined.

Lemma predict_dataframe_rows_witness :
  ∃ result_rows,
    predict (sample_env sample_files 4)
      (DataFrame [[PDict {["x" := PNdarray (zeros 4 1)]}; PDict {["x" := PNdarray (zeros 2 1)]}]])
      PNone {| self := loaded_estimator 4; log := [] |}
    = (Ok (convert_predict_rdd_to_dataframe (sample_env sample_files 4)
             [[PDict {["x" := PNdarray (zeros 4 1)]}; PDict {["x" := PNdarray (zeros 2 1)]}]]
             result_rows),
       {| self := loaded_estimator 4;
          log := [] ++ [DistributedPredict [[PNdarray (zeros 4 1); PNdarray (zeros 2 1)]]] |}) ∧
    Forall2 (λ partition rs,
        ∃ ks, Forall2 (λ feature k, ∃ a, feature = PNdarray a ∧ ndarray_len a = Ok k)
                partition ks ∧
              length rs = sum_list ks)
      [[PNdarray (zeros 4 1); PNdarray (zeros 2 1)]] result_rows.
Proof.
  apply (predict_dataframe_rows (sample_env sample_files 4) (loaded_estimator 4) [] PNone 4
           [[PDict {["x" := PNdarray (zeros 4 1)]}; PDict {["x" := PNdarray (zeros 2 1)]}]]
           [[PDict {["x" := PNdarray (zeros 4 1)]}; PDict {["x" := PNdarray (zeros 2 1)]}]]
           [[PNdarray (zeros 4 1); PNdarray (zeros 2 1)]]
           [[zeros 4 1; zeros 4 1]]).
  - split; [reflexivity | eexists; reflexivity].
  - reflexivity.
  - repeat constructor.
    + eexists. split; [reflexivity|]. split; [reflexivity|]. exists 4%nat. split; [reflexivity|lia].
    + eexists. split; [reflexivity|]. split; [reflexivity|]. exists 2%nat. split; [reflexivity|lia].
  - reflexivity.
  - repeat constructor.
    + exists 4%nat, 4%nat. split; [reflexivity|]. split; [reflexivity|lia].
    + exists 2%nat, 4%nat. split; [reflexivity|]. split; [reflexivity|lia].
Defined.

Lemma from_openvino_constructed_witness :
  ∃ i b,
    rindex_opt "." "resnet.xml" = Some i ∧ b = 4 ∧
    (from_openvino (sample_env sample_files 4) "resnet.xml" 0 []).2
    = [] ++ [ParseXml "resnet.xml"]
         ++ [LoadModel load_openvino_ng "resnet.xml" (str_take i "resnet.xml" +:+ ".bin") b].
Proof.
  destruct (from_openvino_constructed (sample_env sample_files 4) "resnet.xml" 0 []
              (loaded_estimator 4)) as (i & b & Hi & Hb & _ & Hthis & _ & Hlog).
  - reflexivity.
  - exists i, b. split; [done|]. split; [|exact Hlog].
    by injection Hthis as <-.
Defined.

Lemma load_success_state_witness :
  ∃ i, rindex_opt "." "resnet.xml" = Some i ∧
    log (load (sample_env sample_files 4) "resnet.xml" 8 (loaded_world 4)).2
    = [] ++ [] ++ [LoadModel load_openvino "resnet.xml" (str_take i "resnet.xml" +:+ ".bin") 8].
Proof.
  destruct (load_success_state (sample_env sample_files 4) "resnet.xml" 8 (loaded_world 4))
    as (i & b & Hi & _ & _ & Hlog).
  - reflexivity.
  - exists i. split; [done | exact Hlog].
Defined.

Lemma load_failure_state_witness :
  path (self (load (sample_env sample_files 4) "resnet" 8 (loaded_world 4)).2) = Some "resnet".
Proof.
  destruct (load_failure_state (sample_env sample_files 4) "resnet" 8 (loaded_world 4)
              ValueError) as [Hpath _].
  - reflexivity.
  - exact Hpath.
Defined.

(** [update_shard] returns the shard with its keys other than
    ["prediction"] as they were, and under ["prediction"] the first
    [len(shard["x"])] rows of the answer. *)
Theorem update_shard_keeps_other_keys (shard : pyval) (y : ndarray) (r : pyval) :
  update_shard (shard, y) = Ok r →
  (∀ key, key ≠ "prediction" → py_getitem r key = py_getitem shard key) ∧
  ∃ x k y',
    py_getitem shard "x" = Ok x ∧ py_len x = Ok k ∧ slice y 0 k = Ok y' ∧
    py_getitem r "prediction" = Ok (PNdarray y').
Proof.
  unfold update_shard. intros Hrun.
  apply bind_Ok in Hrun as (x & Hx & Hrun).
  apply bind_Ok in Hrun as (k & Hk & Hrun).
  apply bind_Ok in Hrun as (y' & Hy & Hrun).
  destruct shard as [| | | | |d]; try done. injection Hrun as <-. split.
  - intros key Hkey. simpl. by rewrite lookup_insert_ne.
  - exists x, k, y'. split_and!; try done. simpl. by rewrite lookup_insert_eq.
Qed.

Lemma update_shard_keeps_other_keys_witness :
  py_getitem (PDict (<["prediction" := PNdarray (zeros 2 1)]> {["x" := PNdarray (zeros 2 3)]})) "x"
  = py_getitem (PDict {["x" := PNdarray (zeros 2 3)]}) "x".
Proof.
  destruct (update_shard_keeps_other_keys (PDict {["x" := PNdarray (zeros 2 3)]}) (zeros 4 1)
              (PDict (<["prediction" := PNdarray (zeros 2 1)]> {["x" := PNdarray (zeros 2 3)]})))
    as [Hkeep _].
  - reflexivity.
  - apply Hkeep. discriminate.
Defined.

Lemma trim_results_prefix outs : ∀ pre lens extra tail,
  Forall2 (λ y m, ∃ my, shape y = my :: tail ∧ (m ≤ my)%nat) outs lens →
  ∃ trimmed,
    map_result (λ p : nat * ndarray,
        match (pre ++ lens ++ extra) !! p.1 with
        | Some k => slice p.2 0 k
        | None => Err IndexError
        end) (zip (seq (length pre) (length outs)) outs) = Ok trimmed ∧
    Forall2 (λ t m, shape t = m :: tail) trimmed lens.
Proof.
  induction outs as [|y outs IH]; intros pre lens extra tail Hall.
  - inversion Hall; subst. exists []. split; [done|constructor].
  - inversion Hall as [|? m ? lens' (my & Hs & Hm) Hall']; subst. simpl.
    rewrite lookup_app_r by lia. rewrite Nat.sub_diag. simpl.
    destruct (slice_prefix y my tail m Hs Hm) as (y' & Hslice & Hs').
    rewrite Hslice. simpl.
    destruct (IH (pre ++ [m]) lens' extra tail Hall') as (trimmed & Hrun & Htr).
    rewrite length_app in Hrun. simpl in Hrun.
    replace (length pre + 1)%nat with (S (length pre)) in Hrun by lia.
    rewrite <- app_assoc in Hrun. simpl in Hrun. rewrite Hrun. simpl.
    exists (y' :: trimmed). split; [done | by constructor].
Qed.

Lemma trim_results_surplus outs : ∀ pre lens,
  (length lens < length outs)%nat →
  Forall (λ y, shape y ≠ []) (take (length lens) outs) →
  map_result (λ p : nat * ndarray,
      match (pre ++ lens) !! p.1 with
      | Some k => slice p.2 0 k
      | None => Err IndexError
      end) (zip (seq (length pre) (length outs)) outs) = Err IndexError.
Proof.
  induction outs as [|y outs IH]; intros pre lens Hlen Hdim; simpl in *; [lia|].
  destruct lens as [|m lens]; simpl in *.
  - rewrite app_nil_r. rewrite lookup_ge_None_2 by lia. done.
  - rewrite lookup_app_r by lia. rewrite Nat.sub_diag. simpl.
    apply Forall_cons in Hdim as [Hy Hdim].
    assert (∃ t, slice y 0 m = Ok t) as [t Ht].
    { unfold slice. destruct (shape y); [done|]. eauto. }
    rewrite Ht. simpl.
    specialize (IH (pre ++ [m]) lens ltac:(lia) Hdim).
    rewrite length_app in IH. simpl in IH.
    replace (length pre + 1)%nat with (S (length pre)) in IH by lia.
    rewrite <- app_assoc in IH. simpl in IH. by rewrite IH.
Qed.

(** The trimming loop runs over the results, not over the chunks.  With no
    result at all [concatenate] raises [ValueError]; with more results than
    chunks the loop raises [IndexError]; with at most as many results as
    chunks, each covering its chunk, [predict] returns the rows of the chunks
    that were answered and says nothing about the others. *)
Theorem predict_ndarray_result_count E this logs fc data n b k arrays lens outs :
  ready this b → 1 ≤ b → (1 ≤ n)%nat → ndarray_len data = Ok n →
  split_ndarray this data = Ok (k, arrays, lens) →
  engine_distributed_predict E (sc_parallelize E (PNdarray <$> arrays) k) = Ok outs →
  (collect outs = [] →
     (predict E (Value (PNdarray data)) fc {| self := this; log := logs |}).1
     = Err ValueError) ∧
  ((length arrays < length (collect outs))%nat →
   Forall (λ y, shape y ≠ []) (take (length arrays) (collect outs)) →
     (predict E (Value (PNdarray data)) fc {| self := this; log := logs |}).1
     = Err IndexError) ∧
  (∀ tail, collect outs ≠ [] →
     Forall2 (λ c y, ∃ m my, ndarray_len c = Ok m ∧ shape y = my :: tail ∧ (m ≤ my)%nat)
       (take (length (collect outs)) arrays) (collect outs) →
     ∃ r, (predict E (Value (PNdarray data)) fc {| self := this; log := logs |}).1
          = Ok (Value (PNdarray r)) ∧
          shape r = sum_list (take (length (collect outs)) lens) :: tail).
Proof.
  intros [Hb [mo Hmo]] Hb1 Hn Hlen Hsplit Hengine.
  destruct (split_ndarray_lens this data n b k arrays lens Hb Hlen Hsplit)
    as (Hk & Hl & Hsum & Hlens).
  assert (Hrun : (predict E (Value (PNdarray data)) fc {| self := this; log := logs |}).1
                 = (reassemble outs (Some lens) ≫= λ r, Ok (Value (PNdarray r)))).
  { simpl. unfold predict_ndarray. run_M. rewrite Hsplit. simpl. rewrite Hmo. simpl.
    rewrite Hengine. simpl. by destruct (reassemble outs (Some lens)). }
  rewrite Hrun. unfold reassemble. split; [|split].
  - intros ->. done.
  - intros Hmore Hdim. unfold trim_results, enumerate.
    pose proof (trim_results_surplus (collect outs) [] lens) as Hgo. simpl in Hgo.
    rewrite Hgo; [done| |].
    + by rewrite <- (Forall2_length _ _ _ Hlens).
    + by rewrite <- (Forall2_length _ _ _ Hlens).
  - intros tail Hne Hcov.
    set (j := length (collect outs)) in *.
    assert (Hcov' : Forall2 (λ y m, ∃ my, shape y = my :: tail ∧ (m ≤ my)%nat)
                      (collect outs) (take j lens)).
    { pose proof (Forall2_take _ _ _ j Hlens) as Htl.
      clearbody j. revert Htl Hcov.
      generalize (take j lens), (collect outs), (take j arrays). intros ls0 ys0 cs0 Htl Hys.
      revert ls0 Htl.
      induction Hys as [|c y cs ys (m & my & Hm & Hy & Hle) _ IH]; intros ls Hls.
      - inversion Hls. constructor.
      - inversion Hls as [|? m' ? ls' Hm' Hls']; subst.
        constructor; [|by apply IH]. exists my. split; [done|]. congruence. }
    pose proof (trim_results_prefix (collect outs) [] (take j lens) (drop j lens) tail Hcov')
      as (trimmed & Htrim & Htr).
    simpl in Htrim. rewrite take_drop in Htrim.
    unfold trim_results, enumerate. rewrite Htrim. simpl.
    destruct (concatenate_ok trimmed (take j lens) tail) as (r & Hcat & Hr); [|done|].
    { intros ->. apply Forall2_length in Htr, Hcov'. simpl in Htr.
      apply Hne, nil_length_inv. by rewrite Hcov', <- Htr. }
    rewrite Hcat. simpl. eauto.
Qed.

Lemma predict_ndarray_result_count_witness :
  ∃ r, (predict (sample_env sample_files 4) (Value (PNdarray (zeros 22 2))) PNone
          {| self := loaded_estimator 4; log := [] |}).1
       = Ok (Value (PNdarray r)) ∧
       shape r = sum_list (take (length (collect (replicate 6 [zeros 4 1])))
                             [4; 4; 4; 4; 3; 3]%nat) :: [1%nat].
Proof.
  destruct (predict_ndarray_result_count (sample_env sample_files 4)
              (loaded_estimator 4) [] PNone (zeros 22 2) 22 4 6
              (default [] (match split_ndarray (loaded_estimator 4) (zeros 22 2) with
                           | Ok (_, arrays, _) => Some arrays
                           | Err _ => None
                           end))
              [4; 4; 4; 4; 3; 3]%nat
              (replicate 6 [zeros 4 1])) as (_ & _ & Hsome).
  - split; [reflexivity | eexists; reflexivity].
  - lia.
  - lia.
  - reflexivity.
  - vm_compute. reflexivity.
  - vm_compute. reflexivity.
  - apply (Hsome [1%nat]).
    + discriminate.
    + vm_compute.
      repeat (apply List.Forall2_cons;
                [eexists _, _; split; [reflexivity|]; split; [reflexivity|]; lia|]).
      apply List.Forall2_nil.
Defined.

(** A shard of two rows under a batch size of four is let through. *)
Lemma predict_transform_accepts_iff_witness :
  predict_transform (PDict {["x" := PNdarray (zeros 2 1)]}) 4 = Ok (PNdarray (zeros 2 1)).
Proof.
  destruct (predict_transform_accepts_iff (PDict {["x" := PNdarray (zeros 2 1)]}) 4)
    as [Hiff _].
  apply Hiff. eexists. split; [reflexivity|]. split; [reflexivity|].
  exists 2%nat. split; [reflexivity | lia].
Defined.
